(** * SATURN automatisation: the retail write-off batcher and the delivery notifier

    A shallow embedding of [services/sending_retail.py] and
    [services/reciving_inv.py].

    Conventions of the embedding.
    - A pandas [DataFrame] is the list of its rows, in index order.  A cell
      that pandas holds as NaN / NaT / None is [None].
    - Quantities ([countPu], [countPuSent]) are whole numbers.  A column
      of whole numbers that all fit 64 bits is an int64 column, whose sums
      wrap around; a column with a missing cell is a float64 column, whose
      cells and sums are rounded to 53 significant bits.  [float(...)]
      rounds in the same way.
    - [datetime.now()] is a stream of readings [clock : nat -> Z]; the state
      counts how many readings were taken.
    - A loop that Python may run forever is given fuel; [OutOfFuel] for
      every amount of fuel is divergence. *)

From Stdlib Require Import String Ascii.
From Stdlib Require Import ZArith List Bool Lia Permutation Sorted.
Import ListNotations.
Open Scope Z_scope.

(** ** Outcome of running a piece of Python *)

Inductive PyError := IndexError | ValueError | RequestException | OtherException.

Inductive Run (A : Type) : Type :=
| Done (a : A)
| Raised (e : PyError)
| OutOfFuel.
Arguments Done {A} a.
Arguments Raised {A} e.
Arguments OutOfFuel {A}.

(** ** The process state shared by the services of [sending_retail.py] *)

Record World := {
  counter : nat;       (* InvoiceCounter._counter *)
  ticks : nat          (* number of readings of the wall clock so far *)
}.

Module InvoiceCounter.

(** [get_next]: reads the date, formats [date-counter], bumps the counter.
    The formatted string is kept as the pair it is built from. *)
Definition get_next (clock : nat -> Z) (w : World) : (Z * nat) * World :=
  let date_str := clock (ticks w) in
  let doc_num := (date_str, counter w) in
  (doc_num, {| counter := S (counter w); ticks := S (ticks w) |}).

Definition reset (w : World) : World :=
  {| counter := 1%nat; ticks := ticks w |}.

End InvoiceCounter.

(** ** Stock rows *)

Record StockRow := {
  countPu : option Z;        (* pd.to_numeric(..., errors='coerce') *)
  batchId : option Z;
  patId : option Z;
  warehouseId : option Z;
  contractorId : option Z;
  validFrom : option Z;      (* pd.to_datetime(..., utc=True, errors='coerce') *)
  note : option (list Z)     (* Unicode code points; None for a null cell *)
}.

Definition DataFrame := list StockRow.

(** *** The note filter: [str.contains('списание со склада', case=False)] *)

(** Simple case folding for the Latin and the Cyrillic alphabet, and for
    the letter variants U+1C80..U+1C88 that [re.IGNORECASE] identifies with
    Cyrillic small letters. *)
Definition lower (c : Z) : Z :=
  if (65 <=? c) && (c <=? 90) then c + 32
  else if (1040 <=? c) && (c <=? 1071) then c + 32
  else if (1024 <=? c) && (c <=? 1039) then c + 80
  else if c =? 7296 then 1074
  else if c =? 7297 then 1076
  else if c =? 7298 then 1086
  else if c =? 7299 then 1089
  else if (c =? 7300) || (c =? 7301) then 1090
  else if c =? 7302 then 1098
  else if c =? 7303 then 1123
  else if c =? 7304 then 42571
  else c.

(** The code points of [списание со склада]. *)
Definition marker : list Z :=
  [1089; 1087; 1080; 1089; 1072; 1085; 1080; 1077; 32;
   1089; 1086; 32; 1089; 1082; 1083; 1072; 1076; 1072].

Fixpoint starts_with (p s : list Z) : bool :=
  match p, s with
  | [], _ => true
  | _ :: _, [] => false
  | a :: p', b :: s' => (lower a =? lower b) && starts_with p' s'
  end.

Fixpoint contains (p s : list Z) : bool :=
  starts_with p s ||
  match s with
  | [] => false
  | _ :: s' => contains p s'
  end.

Definition written_off (r : StockRow) : bool :=
  match note r with
  | Some s => contains marker s
  | None => false
  end.

Definition positive_count (r : StockRow) : bool :=
  match countPu r with
  | Some q => 0 <? q
  | None => false
  end.

(** Lines 132-144: keep [countPu > 0], then drop the written-off notes. *)
Definition filter_rows (df : DataFrame) : DataFrame :=
  filter (fun r => negb (written_off r)) (filter positive_count df).

(** *** [sort_values(['validFrom', 'batchId'])]: stable, ascending, NaN last *)

Definition compare_na_last (a b : option Z) : comparison :=
  match a, b with
  | Some x, Some y => x ?= y
  | Some _, None => Lt
  | None, Some _ => Gt
  | None, None => Eq
  end.

Definition row_leb (r1 r2 : StockRow) : bool :=
  match compare_na_last (validFrom r1) (validFrom r2) with
  | Lt => true
  | Gt => false
  | Eq => match compare_na_last (batchId r1) (batchId r2) with
          | Gt => false
          | _ => true
          end
  end.

Fixpoint insert_row (r : StockRow) (l : list StockRow) : list StockRow :=
  match l with
  | [] => [r]
  | x :: l' => if row_leb r x then r :: x :: l' else x :: insert_row r l'
  end.

Definition sort_values (df : DataFrame) : DataFrame :=
  fold_right insert_row [] df.

(** *** [groupby(group_columns).agg(...).reset_index()]

    pandas' defaults: [sort=True] (groups come out in ascending key order)
    and [dropna=True] (a row with a missing key cell belongs to no group). *)

Definition GroupKey := (Z * Z * Z * Z)%type.

Definition group_key (r : StockRow) : option GroupKey :=
  match batchId r, patId r, warehouseId r, contractorId r with
  | Some b, Some p, Some w, Some c => Some (b, p, w, c)
  | _, _, _, _ => None
  end.

Definition key_compare (k1 k2 : GroupKey) : comparison :=
  let '(b1, p1, w1, c1) := k1 in
  let '(b2, p2, w2, c2) := k2 in
  match b1 ?= b2 with
  | Eq => match p1 ?= p2 with
          | Eq => match w1 ?= w2 with
                  | Eq => c1 ?= c2
                  | o => o
                  end
          | o => o
          end
  | o => o
  end.

Definition key_eqb (k1 k2 : GroupKey) : bool :=
  match key_compare k1 k2 with Eq => true | _ => false end.

Fixpoint insert_key (k : GroupKey) (ks : list GroupKey) : list GroupKey :=
  match ks with
  | [] => [k]
  | x :: ks' =>
      match key_compare k x with
      | Lt => k :: x :: ks'
      | Eq => x :: ks'
      | Gt => x :: insert_key k ks'
      end
  end.

Definition group_keys (df : DataFrame) : list GroupKey :=
  fold_right (fun r ks => match group_key r with
                          | Some k => insert_key k ks
                          | None => ks
                          end) [] df.

Definition in_group (k : GroupKey) (r : StockRow) : bool :=
  match group_key r with
  | Some k' => key_eqb k' k
  | None => false
  end.

Definition quantity (r : StockRow) : Z :=
  match countPu r with Some q => q | None => 0 end.

(** *** Machine arithmetic of the [countPu] column *)

Inductive Dtype := Int64 | Float64.

Definition fits_int64 (z : Z) : bool :=
  (- 2 ^ 63 <=? z) && (z <? 2 ^ 63).

(** The dtype after [pd.to_numeric]: int64 when every cell is a whole
    number that fits, float64 as soon as a cell is missing. *)
Definition countPu_dtype (df : DataFrame) : Dtype :=
  if forallb (fun r => match countPu r with
                       | Some z => fits_int64 z
                       | None => false
                       end) df
  then Int64 else Float64.

(** int64 addition wraps around. *)
Definition wrap64 (z : Z) : Z := (z + 2 ^ 63) mod 2 ^ 64 - 2 ^ 63.

(** The nearest float64 of a whole number (53 significant bits, ties to
    even), as a whole number again. *)
Definition float_of (z : Z) : Z :=
  let a := Z.abs z in
  if a <? 2 ^ 53 then z
  else
    let e := Z.log2 a - 52 in
    let q := a / 2 ^ e in
    let r := a mod 2 ^ e in
    let half := 2 ^ (e - 1) in
    let q' := if r <? half then q
              else if half <? r then q + 1
              else if Z.even q then q else q + 1 in
    Z.sgn z * (q' * 2 ^ e).

(** The sum of the cells as mathematics has it. *)
Definition exact_sum (rows : list StockRow) : Z :=
  fold_right (fun r acc => quantity r + acc) 0 rows.

(** ['countPu': 'sum'].  An int64 sum wraps around.  A float64 sum is exact
    as long as it stays below 2^53; above that its last bits depend on the
    summation scheme of the pandas version, and the sum of the rounded
    cells, rounded once, stands for it. *)
Definition agg_sum (dt : Dtype) (rows : list StockRow) : Z :=
  match dt with
  | Int64 => wrap64 (exact_sum rows)
  | Float64 =>
      float_of (fold_right (fun r acc => float_of (quantity r) + acc) 0 rows)
  end.

(** ['validFrom': 'min'], which skips NaT *)
Definition agg_min (rows : list StockRow) : option Z :=
  fold_right (fun r acc => match validFrom r, acc with
                           | Some t, Some m => Some (Z.min t m)
                           | Some t, None => Some t
                           | None, _ => acc
                           end) None rows.

Record BatchGroup := {
  grp_batchId : Z;
  grp_patId : Z;
  grp_warehouseId : Z;
  grp_contractorId : Z;
  grp_countPu : Z;
  grp_validFrom : option Z
}.

Definition aggregate (dt : Dtype) (df : DataFrame) (k : GroupKey) : BatchGroup :=
  let '(b, p, w, c) := k in
  let rows := filter (in_group k) df in
  {| grp_batchId := b; grp_patId := p; grp_warehouseId := w;
     grp_contractorId := c;
     grp_countPu := agg_sum dt rows; grp_validFrom := agg_min rows |}.

Definition groupby_agg (dt : Dtype) (df : DataFrame) : list BatchGroup :=
  map (aggregate dt df) (group_keys df).

(** ** Invoices *)

Record InvoiceLine := {
  line_batchId : Z;
  countPuSent : Z
}.

Record InvoiceSpec := {
  docDate : Z;
  docNote : nat;                 (* len(items), spelled out in docNote and name *)
  docNum : Z * nat;              (* <date>-<counter> *)
  receiverContractorId : Z;
  sourceWarehouseId : Z;
  tbrDtoList : list InvoiceLine
}.

Definition datetime_now (clock : nat -> Z) (w : World) : Z * World :=
  (clock (ticks w), {| counter := counter w; ticks := S (ticks w) |}).

Definition create_invoice_payload (clock : nat -> Z)
    (items : list InvoiceLine) (row : BatchGroup) (w : World)
  : InvoiceSpec * World :=
  let '(current_time, w1) := datetime_now clock w in
  let '(doc_num, w2) := InvoiceCounter.get_next clock w1 in
  ({| docDate := current_time;
      docNote := length items;
      docNum := doc_num;
      receiverContractorId := grp_contractorId row;
      sourceWarehouseId := grp_warehouseId row;
      tbrDtoList := items |}, w2).

(** *** The placement loop of [prepare_invoices] (lines 180-208) *)

Record Walk := {
  invoices : list InvoiceSpec;
  current_items : list InvoiceLine;
  world : World
}.

(** [invoices.append(create_invoice_payload(current_items, row));
     current_items = []] *)
Definition close_invoice (clock : nat -> Z) (row : BatchGroup) (s : Walk) : Walk :=
  let '(payload, w') := create_invoice_payload clock (current_items s) row (world s) in
  {| invoices := invoices s ++ [payload]; current_items := []; world := w' |}.

Definition is_nonempty {A} (l : list A) : bool :=
  match l with [] => false | _ :: _ => true end.

(** One iteration of the body of [while remaining_quantity > 0]. *)
Definition place_body (clock : nat -> Z) (items_per_invoice : Z)
    (row : BatchGroup) (remaining_quantity : Z) (s : Walk) : Z * Walk :=
  let available_space := items_per_invoice - Z.of_nat (length (current_items s)) in
  if 0 <? available_space then
    let s1 := {| invoices := invoices s;
                 current_items := current_items s ++
                   [{| line_batchId := grp_batchId row;
                       countPuSent := float_of remaining_quantity |}];
                 world := world s |} in
    let s2 := if items_per_invoice <=? Z.of_nat (length (current_items s1))
              then close_invoice clock row s1 else s1 in
    (0, s2)
  else
    (remaining_quantity,
     if is_nonempty (current_items s) then close_invoice clock row s else s).

Fixpoint place_loop (fuel : nat) (clock : nat -> Z) (items_per_invoice : Z)
    (row : BatchGroup) (remaining_quantity : Z) (s : Walk) : Run Walk :=
  if 0 <? remaining_quantity then
    match fuel with
    | O => OutOfFuel
    | S fuel' =>
        let '(remaining', s') :=
          place_body clock items_per_invoice row remaining_quantity s in
        place_loop fuel' clock items_per_invoice row remaining' s'
    end
  else Done s.

(** [for _, row in batch_groups.iterrows()] *)
Fixpoint walk_groups (fuel : nat) (clock : nat -> Z) (items_per_invoice : Z)
    (batch_groups : list BatchGroup) (s : Walk) : Run Walk :=
  match batch_groups with
  | [] => Done s
  | row :: rest =>
      match place_loop fuel clock items_per_invoice row (grp_countPu row) s with
      | Done s' => walk_groups fuel clock items_per_invoice rest s'
      | Raised e => Raised e
      | OutOfFuel => OutOfFuel
      end
  end.

(** Python's [l[:n]] *)
Definition slice_to {A} (n : Z) (l : list A) : list A :=
  if 0 <=? n then firstn (Z.to_nat n) l
  else firstn (length l - Z.to_nat (- n)) l.

(** [if max_invoices: invoices = invoices[:max_invoices]] *)
Definition limit_invoices {A} (max_invoices : option Z) (l : list A) : list A :=
  match max_invoices with
  | None => l
  | Some n => if n =? 0 then l else slice_to n l
  end.

Definition prepare_invoices (fuel : nat) (clock : nat -> Z) (df : DataFrame)
    (items_per_invoice : Z) (max_invoices : option Z) (w : World)
  : Run (list InvoiceSpec * World) :=
  let df_filtered := filter_rows df in
  if negb (is_nonempty df_filtered) then Done ([], w)
  else
    let df_sorted := sort_values df_filtered in
    let batch_groups := groupby_agg (countPu_dtype df) df_sorted in
    match walk_groups fuel clock items_per_invoice batch_groups
            {| invoices := []; current_items := []; world := w |} with
    | Done s =>
        if is_nonempty (current_items s) then
          match rev batch_groups with
          | [] => Raised IndexError               (* batch_groups.iloc[-1] *)
          | last_row :: _ =>
              let s' := close_invoice clock last_row s in
              Done (limit_invoices max_invoices (invoices s'), world s')
          end
        else Done (limit_invoices max_invoices (invoices s), world s)
    | Raised e => Raised e
    | OutOfFuel => OutOfFuel
    end.

(** ** [run_retail_write_off_service] *)

(** What the service sends: the draft-creation payload, then
    [create_retail_payload(invoice_id)]. *)
Inductive Request :=
| CreateDraft (payload : InvoiceSpec)
| SendToRetail (invoice_id : option Z).

(** What [requests.post] followed by [raise_for_status] and [json] does:
    a transport or HTTP-status failure, any other exception, or a decoded
    body, of which only [resData.id] is read: [None] when [resData] or its
    [id] key is absent, [Some None] when the id is null, [Some (Some n)]
    when it is the number [n]. *)
Inductive Response :=
| RaisesRequestException
| RaisesOther
| Body (resData_id : option (option Z)).

(** The remote API answers a request knowing the requests sent before. *)
Definition Network := list Request -> Request -> Response.

Inductive Status := created_and_sent | network_error | error.

Record SubmissionResult := {
  res_docNum : Z * nat;
  res_status : Status;
  res_invoice_id : option (option Z);    (* None: the result has no such key *)
  res_items_count : option nat;
  res_timestamp : option Z
}.

Record Live := {
  results : list SubmissionResult;
  sent : list Request;
  live_world : World
}.

Definition record_failure (clock : nat -> Z) (doc_num : Z * nat) (st : Status)
    (sent' : list Request) (s : Live) : Live :=
  let '(now, w') := datetime_now clock (live_world s) in
  {| results := results s ++
       [{| res_docNum := doc_num; res_status := st; res_invoice_id := None;
           res_items_count := None; res_timestamp := Some now |}];
     sent := sent'; live_world := w' |}.

(** The body of [for idx, inv_payload in enumerate(invoices, start=1)]. *)
Definition submit_invoice (clock : nat -> Z) (net : Network)
    (inv_payload : InvoiceSpec) (s : Live) : Live :=
  let doc_num := docNum inv_payload in
  let create := CreateDraft inv_payload in
  let sent1 := sent s ++ [create] in
  match net (sent s) create with
  | RaisesRequestException => record_failure clock doc_num network_error sent1 s
  | RaisesOther => record_failure clock doc_num error sent1 s
  | Body None =>
      {| results := results s ++
           [{| res_docNum := doc_num; res_status := error; res_invoice_id := None;
               res_items_count := None; res_timestamp := None |}];
         sent := sent1; live_world := live_world s |}
  | Body (Some invoice_id) =>
      let retail := SendToRetail invoice_id in
      let sent2 := sent1 ++ [retail] in
      match net sent1 retail with
      | RaisesRequestException => record_failure clock doc_num network_error sent2 s
      | RaisesOther => record_failure clock doc_num error sent2 s
      | Body _ =>
          let '(now, w') := datetime_now clock (live_world s) in
          {| results := results s ++
               [{| res_docNum := doc_num; res_status := created_and_sent;
                   res_invoice_id := Some invoice_id;
                   res_items_count := Some (length (tbrDtoList inv_payload));
                   res_timestamp := Some now |}];
             sent := sent2; live_world := w' |}
      end
  end.

(** The returned pair [(invoices, results)], the requests issued and the
    process state at the end. *)
Record ServiceOutcome := {
  ret_invoices : list InvoiceSpec;
  ret_results : list SubmissionResult;
  requests_issued : list Request;
  final_world : World
}.

Definition run_retail_write_off_service (fuel : nat) (clock : nat -> Z)
    (net : Network) (df : DataFrame) (items_per_invoice : Z)
    (max_invoices : option Z) (execute : bool) (w : World) : Run ServiceOutcome :=
  let w0 := InvoiceCounter.reset w in
  match prepare_invoices fuel clock df items_per_invoice max_invoices w0 with
  | Done (invoices, w1) =>
      if negb (is_nonempty invoices) then
        Done {| ret_invoices := []; ret_results := [];
                requests_issued := []; final_world := w1 |}
      else if negb execute then
        Done {| ret_invoices := invoices; ret_results := [];
                requests_issued := []; final_world := w1 |}
      else
        let s := fold_left (fun s inv_payload => submit_invoice clock net inv_payload s)
                           invoices
                           {| results := []; sent := []; live_world := w1 |} in
        Done {| ret_invoices := invoices; ret_results := results s;
                requests_issued := sent s; final_world := live_world s |}
  | Raised e => Raised e
  | OutOfFuel => OutOfFuel
  end.

(** ** The delivery notifier, [reciving_inv.py] *)

Module InvoiceService.

(** A cell of the fetched table: null (None / NaN), a number, or text.
    Numbers are integers here; pandas may hold them as integral floats. *)
Inductive Cell :=
| CNull
| CInt (z : Z)
| CStr (s : String.string).

Record DeliveryRow := {
  id : Cell;
  destinationWarehouseId : Cell
}.

(** [pd.isna] *)
Definition isna (c : Cell) : bool :=
  match c with CNull => true | _ => false end.

(** [c in (0, '0')] *)
Definition in_zero (c : Cell) : bool :=
  match c with
  | CNull => false
  | CInt z => z =? 0
  | CStr s => String.eqb s "0"%string
  end.

(** *** Python's [int(...)] on text: surrounding whitespace, an optional
    sign, and decimal digits that single underscores may separate.

    This is [int] as it reads ASCII text of moderate length ([plain_text]
    below).  What [int] does with other text (digits and spaces of other
    scripts, the digit limit of recent interpreters) depends on the
    interpreter and is outside the embedding. *)

Definition is_space (a : Ascii.ascii) : bool :=
  let n := Ascii.nat_of_ascii a in
  (Nat.eqb n 32 || (Nat.leb 9 n && Nat.leb n 13))%bool.

Definition digit_of (a : Ascii.ascii) : option Z :=
  let n := Ascii.nat_of_ascii a in
  if (Nat.leb 48 n && Nat.leb n 57)%bool then Some (Z.of_nat n - 48) else None.

Fixpoint lstrip (s : list Ascii.ascii) : list Ascii.ascii :=
  match s with
  | a :: s' => if is_space a then lstrip s' else s
  | [] => []
  end.

Definition strip (s : list Ascii.ascii) : list Ascii.ascii :=
  rev (lstrip (rev (lstrip s))).

Fixpoint parse_digits (acc : Z) (after_digit : bool) (s : list Ascii.ascii)
  : option Z :=
  match s with
  | [] => if after_digit then Some acc else None
  | a :: s' =>
      match digit_of a with
      | Some d => parse_digits (10 * acc + d) true s'
      | None =>
          if (Nat.eqb (Ascii.nat_of_ascii a) 95 && after_digit)%bool
          then parse_digits acc false s'
          else None
      end
  end.

Definition int_of_text (s : String.string) : option Z :=
  match strip (String.list_ascii_of_string s) with
  | a :: s' =>
      if Nat.eqb (Ascii.nat_of_ascii a) 45 then option_map Z.opp (parse_digits 0 false s')
      else if Nat.eqb (Ascii.nat_of_ascii a) 43 then parse_digits 0 false s'
      else parse_digits 0 false (a :: s')
  | [] => None
  end.

(** [int(c)]; [None] when Python raises (TypeError or ValueError). *)
Definition py_int (c : Cell) : option Z :=
  match c with
  | CNull => None
  | CInt z => Some z
  | CStr s => int_of_text s
  end.

(** The cell is not text, or it is ASCII text of at most 4300 characters. *)
Definition plain_text (c : Cell) : bool :=
  match c with
  | CStr s =>
      forallb (fun a => Nat.ltb (Ascii.nat_of_ascii a) 128)
              (String.list_ascii_of_string s)
      && Nat.leb (String.length s) 4300
  | _ => true
  end.

(** *** The service *)

Record NotifyRequest := {
  oid : Cell;                         (* str(invoice_id) *)
  dateAction : Z;
  req_destinationWarehouseId : Z
}.

Inductive PostOutcome :=
| PostRaises
| PostStatus (status_code : Z).

(** One call of [notify_delivered]: either building the payload raised and
    nothing was sent, or the request was posted. *)
Inductive Attempt :=
| NotSent (invoice_id destination_warehouse_id : Cell)
| Posted (req : NotifyRequest) (out : PostOutcome).

Record Backend := {
  fetch_result : PyError + list DeliveryRow;
  post_notify : list NotifyRequest -> NotifyRequest -> PostOutcome
}.

Record Service := {
  success_count : nat;
  error_count : nat;
  skipped_count : nat;
  attempts : list Attempt;            (* calls of notify_delivered, in order *)
  clock_reads : nat
}.

(** [__init__] *)
Definition init : Service :=
  {| success_count := 0; error_count := 0; skipped_count := 0;
     attempts := []; clock_reads := 0 |}.

Definition posted_requests (l : list Attempt) : list NotifyRequest :=
  flat_map (fun a => match a with Posted req _ => [req] | NotSent _ _ => [] end) l.

Definition fetch_invoices (backend : Backend) : PyError + list DeliveryRow :=
  fetch_result backend.

Definition notify_delivered (clock : nat -> Z) (backend : Backend) (svc : Service)
    (invoice_id destination_warehouse_id : Cell) : Attempt :=
  let current_time := clock (clock_reads svc) in
  match py_int destination_warehouse_id with
  | None => NotSent invoice_id destination_warehouse_id
  | Some wh =>
      let req := {| oid := invoice_id; dateAction := current_time;
                    req_destinationWarehouseId := wh |} in
      Posted req (post_notify backend (posted_requests (attempts svc)) req)
  end.

(** The warehouse id that the loop passes on for a row. *)
Definition effective_warehouse (row : DeliveryRow) : Cell :=
  let invoice_id := id row in
  let dest_wh := destinationWarehouseId row in
  if (isna invoice_id || isna dest_wh || in_zero dest_wh)%bool
  then CInt 1085300 else dest_wh.

(** The body of [for idx, row in df.iterrows()]. *)
Definition process_row (clock : nat -> Z) (backend : Backend)
    (svc : Service) (row : DeliveryRow) : Service :=
  let invoice_id := id row in
  let dest_wh := effective_warehouse row in
  let a := notify_delivered clock backend svc invoice_id dest_wh in
  let ok := match a with
            | Posted _ (PostStatus status) => status =? 200
            | _ => false
            end in
  {| success_count := if ok then S (success_count svc) else success_count svc;
     error_count := if ok then error_count svc else S (error_count svc);
     skipped_count := skipped_count svc;
     attempts := attempts svc ++ [a];
     clock_reads := S (clock_reads svc) |}.

Definition run (clock : nat -> Z) (backend : Backend) (svc : Service) : Run Service :=
  match fetch_invoices backend with
  | inr df => Done (fold_left (process_row clock backend) df svc)
  | inl e => Raised e
  end.

(** The invoice id an attempt was made for. *)
Definition attempt_id (a : Attempt) : Cell :=
  match a with
  | NotSent invoice_id _ => invoice_id
  | Posted req _ => oid req
  end.

End InvoiceService.

(** ** The command line of the write-off service: [get_warehouse_stocks], [main] *)

(** [get_warehouse_stocks]: what the stock request comes back with.  Any
    exception (transport, HTTP status, body that is not JSON) and a body
    without [resData.rows] both make the function return [None]. *)
Inductive StockResponse :=
| StocksRaise
| StocksNoRows
| StocksRows (rows : DataFrame).

Definition get_warehouse_stocks (clock : nat -> Z) (resp : StockResponse)
    (w : World) : option DataFrame * World :=
  let '(current_time, w1) := datetime_now clock w in
  (match resp with
   | StocksRows rows => Some rows
   | StocksRaise | StocksNoRows => None
   end, w1).

(** The parsed command line; [default_args] is what [argparse] fills in. *)
Record Args := {
  arg_execute : bool;
  arg_limit : Z;
  arg_items : Z;
  arg_no_limit : bool
}.

Definition default_args : Args :=
  {| arg_execute := false; arg_limit := 2; arg_items := 2; arg_no_limit := false |}.

(** The environment: [URL] and [AUTHORIZATION]. *)
Record Config := {
  URL : option string;
  AUTHORIZATION : option string
}.

(** Python's truth value of [os.getenv(...)]. *)
Definition is_set (v : option string) : bool :=
  match v with
  | Some s => negb (String.eqb s "")
  | None => false
  end.

(** What [main] did: whether the stock request went out, what the service
    returned, and the contents of the two files it wrote. *)
Record MainOutcome := {
  stocks_requested : bool;
  service_outcome : option ServiceOutcome;
  invoices_file : option (list InvoiceSpec);
  results_file : option (list SubmissionResult)
}.

Definition stopped (requested : bool) : MainOutcome :=
  {| stocks_requested := requested; service_outcome := None;
     invoices_file := None; results_file := None |}.

Definition main (fuel : nat) (clock : nat -> Z) (cfg : Config) (args : Args)
    (stock_api : StockResponse) (net : Network) (w : World) : Run MainOutcome :=
  if (negb (is_set (URL cfg)) || negb (is_set (AUTHORIZATION cfg)))%bool
  then Done (stopped false)
  else
    let '(df, w1) := get_warehouse_stocks clock stock_api w in
    match df with
    | None => Done (stopped true)
    | Some df =>
        if negb (is_nonempty df) then Done (stopped true)
        else
          let max_invoices :=
            if arg_no_limit args then None else Some (arg_limit args) in
          match run_retail_write_off_service fuel clock net df (arg_items args)
                  max_invoices (arg_execute args) w1 with
          | Done out =>
              Done {| stocks_requested := true;
                      service_outcome := Some out;
                      invoices_file :=
                        if is_nonempty (ret_invoices out)
                        then Some (ret_invoices out) else None;
                      results_file :=
                        if is_nonempty (ret_results out)
                        then Some (ret_results out) else None |}
          | Raised e => Done (stopped true)       (* except Exception *)
          | OutOfFuel => OutOfFuel
          end
    end.

(** ** Building blocks of the examples *)

Definition stock (q b p w c : Z) (t : option Z) : StockRow :=
  {| countPu := Some q; batchId := Some b; patId := Some p;
     warehouseId := Some w; contractorId := Some c;
     validFrom := t; note := None |}.

Definition world0 : World := {| counter := 1; ticks := 0 |}.
Definition clock0 : nat -> Z := fun k => 20260101 + Z.of_nat k.

Definition lines_of (r : Run (list InvoiceSpec * World)) : Run (list (list (Z * Z))) :=
  match r with
  | Done (l, _) =>
      Done (map (fun i => map (fun x => (line_batchId x, countPuSent x)) (tbrDtoList i)) l)
  | Raised e => Raised e
  | OutOfFuel => OutOfFuel
  end.

Import InvoiceService.

(** ** Vocabulary of the statements *)

(** Rows with and without a parsed validity timestamp. *)
Definition dated (r : StockRow) : Prop := validFrom r <> None.
Definition undated (r : StockRow) : Prop := validFrom r = None.

(** The order in which [groupby] emits the groups. *)
Definition key_lt (k1 k2 : GroupKey) : Prop := key_compare k1 k2 = Lt.

(** The line a group is placed as: its batch id and its whole quantity. *)
Definition line_of_group (g : BatchGroup) : InvoiceLine :=
  {| line_batchId := grp_batchId g; countPuSent := float_of (grp_countPu g) |}.

(** The group is placed: its aggregated quantity lets the loop start. *)
Definition placed (g : BatchGroup) : bool := 0 <? grp_countPu g.

(** The quantities that survive the filter add up to less than 2^53, so
    that neither dtype rounds or wraps. *)
Definition small_quantities (df : DataFrame) : Prop :=
  exact_sum (filter_rows df) < 2 ^ 53.

(** The whole quantity of the rows of group [k]. *)
Definition group_total (df : DataFrame) (k : GroupKey) : Z :=
  exact_sum (filter (in_group k) df).

Definition line_count (i : InvoiceSpec) : Z := Z.of_nat (length (tbrDtoList i)).

(** All lines placed so far, closed invoices first. *)
Definition placed_lines (s : Walk) : list InvoiceLine :=
  concat (map tbrDtoList (invoices s)) ++ current_items s.

(** The loop invariant between two groups. *)
Record walk_inv (items_per_invoice : Z) (s : Walk) : Prop := {
  inv_room : Z.of_nat (length (current_items s)) < items_per_invoice;
  inv_full : Forall (fun i => line_count i = items_per_invoice) (invoices s)
}.

(** Every invoice that is followed by another one is full. *)
Definition full_but_last (items_per_invoice : Z) (l : list InvoiceSpec) : Prop :=
  forall pre x y post, l = pre ++ x :: y :: post -> line_count x = items_per_invoice.

(** [batch_groups] as [prepare_invoices] computes it from its input. *)
Definition batch_groups_of (df : DataFrame) : list BatchGroup :=
  groupby_agg (countPu_dtype df) (sort_values (filter_rows df)).

(** Quantity sent for batch [b], and quantity held by the rows of batch [b]. *)
Definition line_sum (b : Z) (lines : list InvoiceLine) : Z :=
  fold_right (fun x acc => if line_batchId x =? b then countPuSent x + acc else acc)
             0 lines.

Definition row_sum (b : Z) (rows : list StockRow) : Z :=
  fold_right (fun r acc => match batchId r with
                           | Some b' => if b' =? b then quantity r + acc else acc
                           | None => acc
                           end) 0 rows.

(** The rows that [groupby] keeps: all four key cells present. *)
Definition keyed (r : StockRow) : bool :=
  match group_key r with Some _ => true | None => false end.

Definition key_batch (k : GroupKey) : Z := let '(b, _, _, _) := k in b.

(** The line of group [k] when nothing rounds or wraps. *)
Definition exact_line (df : DataFrame) (k : GroupKey) : InvoiceLine :=
  {| line_batchId := key_batch k; countPuSent := group_total df k |}.

Definition sumZ {K} (f : K -> Z) (ks : list K) : Z :=
  fold_right (fun k acc => f k + acc) 0 ks.

(** [prepare_invoices] returns / runs forever. *)
Definition returns clock df items_per_invoice max_invoices w : Prop :=
  exists fuel result,
    prepare_invoices fuel clock df items_per_invoice max_invoices w = Done result.

Definition diverges clock df items_per_invoice max_invoices w : Prop :=
  forall fuel,
    prepare_invoices fuel clock df items_per_invoice max_invoices w = OutOfFuel.

(** ** Example inputs *)

(** Five rows of batch 7, warehouse 1, counterparty 9, same validity date. *)
Definition five_rows : DataFrame :=
  [stock 3 7 1 1 9 (Some 5); stock 2 7 1 1 9 (Some 5); stock 5 7 1 1 9 (Some 5);
   stock 1 7 1 1 9 (Some 5); stock 4 7 1 1 9 (Some 5)].

(** Batch 1 becomes valid in 2025, batch 2 in 2020. *)
Definition two_batches : DataFrame :=
  [stock 3 1 1 1 9 (Some 2025); stock 2 2 1 1 9 (Some 2020)].

(** A positive row of batch 7 whose [patId] cell is null. *)
Definition keyless_rows : DataFrame :=
  [{| countPu := Some 3; batchId := Some 7; patId := None;
      warehouseId := Some 1; contractorId := Some 9;
      validFrom := Some 5; note := None |}].

(** Batch 7 again: 4 units with every cell present, 3 units without [patId]. *)
Definition partly_keyed_rows : DataFrame :=
  stock 4 7 1 1 9 (Some 5) :: keyless_rows.

(** Two rows of one group, 2^62 units each: an int64 column. *)
Definition wrapping_rows : DataFrame :=
  [stock (2 ^ 62) 7 1 1 9 (Some 5); stock (2 ^ 62) 7 1 1 9 (Some 5)].

(** One row of 2^53 + 1 units. *)
Definition rounding_rows : DataFrame :=
  [stock (2 ^ 53 + 1) 7 1 1 9 (Some 5)].

(** A row without a parseable date, then a row with one. *)
Definition undated_first_rows : DataFrame :=
  [stock 1 1 1 1 9 None; stock 1 2 1 1 9 (Some 5)].

(** FIFO order on groups: validity date first (a missing date last, as in
    the sort), then batch id. *)
Definition fifo_leb (g1 g2 : BatchGroup) : bool :=
  match compare_na_last (grp_validFrom g1) (grp_validFrom g2) with
  | Lt => true
  | Gt => false
  | Eq => grp_batchId g1 <=? grp_batchId g2
  end.

Fixpoint fifo_ordered (gs : list BatchGroup) : bool :=
  match gs with
  | g1 :: (g2 :: _) as rest => fifo_leb g1 g2 && fifo_ordered rest
  | _ => true
  end.

(** The timestamp of the row was parsed (it is not NaT). *)
Definition has_date (r : StockRow) : bool :=
  match validFrom r with Some _ => true | None => false end.

(** A remote API that accepts every draft and every send-to-retail. *)
Definition always_created : Network :=
  fun _ req => match req with
               | CreateDraft _ => Body (Some (Some 42))
               | SendToRetail _ => Body None
               end.

(** A delivery record whose warehouse id is text that is not a number. *)
Definition unparseable_record : DeliveryRow :=
  {| id := CInt 5; destinationWarehouseId := CStr "abc" |}.

(** A backend that lists [rows] and answers 200 to every notification. *)
Definition always_ok (rows : list DeliveryRow) : Backend :=
  {| fetch_result := inr rows; post_notify := fun _ _ => PostStatus 200 |}.

(** A delivery record without a destination warehouse. *)
Definition missing_warehouse_record : DeliveryRow :=
  {| id := CInt 6; destinationWarehouseId := CNull |}.

(** A delivery record without an invoice id. *)
Definition missing_id_record : DeliveryRow :=
  {| id := CNull; destinationWarehouseId := CInt 77 |}.

(** ** Vocabulary of the further properties *)

(** The groups whose lines make up one invoice, and the [row] handed to
    [create_invoice_payload] for its header. *)
Definition Chunk := (list BatchGroup * BatchGroup)%type.

(** The header row is the last group of the invoice. *)
Definition headed_by_last (c : Chunk) : Prop :=
  exists init, fst c = init ++ [snd c].

(** The [k]-th invoice closed in a run of [prepare_invoices] that started
    with counter [c0] after [t0] readings of the clock. *)
Definition invoice_of_chunk (clock : nat -> Z) (c0 t0 k : nat) (c : Chunk)
  : InvoiceSpec :=
  {| docDate := clock (t0 + 2 * k)%nat;
     docNote := length (fst c);
     docNum := (clock (S (t0 + 2 * k)), (c0 + k)%nat);
     receiverContractorId := grp_contractorId (snd c);
     sourceWarehouseId := grp_warehouseId (snd c);
     tbrDtoList := map line_of_group (fst c) |}.

Fixpoint invoices_of_chunks (clock : nat -> Z) (c0 t0 k : nat) (cs : list Chunk)
  : list InvoiceSpec :=
  match cs with
  | [] => []
  | c :: cs' => invoice_of_chunk clock c0 t0 k c
                :: invoices_of_chunks clock c0 t0 (S k) cs'
  end.

(** The state of the walk after the groups [done]: the chunks closed so
    far, and the groups of the open invoice. *)
Definition shape (clock : nat -> Z) (c0 t0 : nat) (done : list BatchGroup)
    (s : Walk) : Prop :=
  exists cs cur,
    filter placed done = concat (map fst cs) ++ cur /\
    current_items s = map line_of_group cur /\
    invoices s = invoices_of_chunks clock c0 t0 0 cs /\
    Forall headed_by_last cs /\
    world s = {| counter := c0 + length cs; ticks := t0 + 2 * length cs |}.

(** The invoice without its clock readings. *)
Definition erase_time (i : InvoiceSpec) : InvoiceSpec :=
  {| docDate := 0;
     docNote := docNote i;
     docNum := (0, snd (docNum i));
     receiverContractorId := receiverContractorId i;
     sourceWarehouseId := sourceWarehouseId i;
     tbrDtoList := tbrDtoList i |}.

(** Two states of the walk that differ in clock readings only. *)
Definition same_but_time (s s' : Walk) : Prop :=
  map erase_time (invoices s) = map erase_time (invoices s') /\
  current_items s = current_items s' /\
  counter (world s) = counter (world s').

(** Two runs end in the same way, with results related by [R]. *)
Definition same_outcome {A} (R : A -> A -> Prop) (r r' : Run A) : Prop :=
  match r, r' with
  | Done a, Done a' => R a a'
  | Raised e, Raised e' => e = e'
  | OutOfFuel, OutOfFuel => True
  | _, _ => False
  end.

(** The grouping key of an aggregated group. *)
Definition key_of_group (g : BatchGroup) : GroupKey :=
  (grp_batchId g, grp_patId g, grp_warehouseId g, grp_contractorId g).

(** A note that spells the marker in capitals inside other text. *)
Definition shouting_row : StockRow :=
  {| countPu := Some 5; batchId := Some 3; patId := Some 1;
     warehouseId := Some 1; contractorId := Some 9; validFrom := Some 1;
     note := Some ([33] ++ [1057; 1055; 1048; 1057; 1040; 1053; 1048; 1045; 32;
                            1057; 1054; 32; 1057; 1050; 1051; 1040; 1044; 1040]
                   ++ [33]) |}.

(** What one pass of the submission loop adds for [inv_payload], when the
    requests in [history] went out before it: one result [r] and the
    requests [seg].  A result [created_and_sent] carries the id that the API
    answered to this draft creation, and the send-to-retail of that id was
    answered with a body. *)
Definition submitted (net : Network) (history : list Request)
    (inv_payload : InvoiceSpec) (r : SubmissionResult)
    (seg : list Request) : Prop :=
  res_docNum r = docNum inv_payload /\
  (seg = [CreateDraft inv_payload] \/
   exists invoice_id, seg = [CreateDraft inv_payload; SendToRetail invoice_id]) /\
  match res_status r with
  | created_and_sent =>
      exists invoice_id,
        net history (CreateDraft inv_payload) = Body (Some invoice_id) /\
        (exists answer,
            net (history ++ [CreateDraft inv_payload]) (SendToRetail invoice_id)
            = Body answer) /\
        res_invoice_id r = Some invoice_id /\
        res_items_count r = Some (length (tbrDtoList inv_payload)) /\
        seg = [CreateDraft inv_payload; SendToRetail invoice_id]
  | _ => res_invoice_id r = None /\ res_items_count r = None
  end.

(** The passes of the loop over [invs], each one after the requests of the
    passes before it. *)
Fixpoint all_submitted (net : Network) (history : list Request)
    (invs : list InvoiceSpec) (ps : list (SubmissionResult * list Request))
  : Prop :=
  match invs, ps with
  | [], [] => True
  | inv_payload :: invs', p :: ps' =>
      submitted net history inv_payload (fst p) (snd p) /\
      all_submitted net (history ++ snd p) invs' ps'
  | _, _ => False
  end.

(** What a pass says of its invoice alone: the document number of the
    result and the requests issued. *)
Definition pass_of (inv_payload : InvoiceSpec)
    (p : SubmissionResult * list Request) : Prop :=
  res_docNum (fst p) = docNum inv_payload /\
  (snd p = [CreateDraft inv_payload] \/
   exists invoice_id, snd p = [CreateDraft inv_payload; SendToRetail invoice_id]).

(** A remote API that refuses every request. *)
Definition always_down : Network := fun _ _ => RaisesRequestException.

(** The request was posted and answered with status 200. *)
Definition answered_ok (a : Attempt) : bool :=
  match a with
  | Posted _ (PostStatus status) => status =? 200
  | _ => false
  end.

(** What a row makes the notifier send, if anything: the invoice id and the
    warehouse id of the request. *)
Definition request_of_row (row : DeliveryRow) : list (Cell * Z) :=
  match py_int (effective_warehouse row) with
  | Some wh => [(id row, wh)]
  | None => []
  end.

(** A delivery record with a warehouse id given as text. *)
Definition text_warehouse_record : DeliveryRow :=
  {| id := CInt 8; destinationWarehouseId := CStr " 1_0 " |}.

(** A complete configuration. *)
Definition configured : Config :=
  {| URL := Some "https://erp.example/api"%string;
     AUTHORIZATION := Some "Bearer token"%string |}.

(** * Properties *)

(** ** Filtering and sorting *)

Lemma filter_rows_positive (df : DataFrame) :
  Forall (fun r => 0 < quantity r) (filter_rows df).
Proof.
  unfold filter_rows. apply Forall_forall. intros r Hr.
  apply filter_In in Hr. destruct Hr as [Hr _].
  apply filter_In in Hr. destruct Hr as [_ Hq].
  unfold positive_count in Hq. unfold quantity.
  destruct (countPu r); [apply Z.ltb_lt; exact Hq | discriminate].
Qed.

Lemma insert_row_perm (r : StockRow) (l : list StockRow) :
  Permutation (insert_row r l) (r :: l).
Proof.
  induction l as [|x l IH]; simpl.
  - apply Permutation_refl.
  - destruct (row_leb r x).
    + apply Permutation_refl.
    + apply perm_trans with (x :: r :: l).
      * apply perm_skip. exact IH.
      * apply perm_swap.
Qed.

Lemma sort_values_perm (df : DataFrame) : Permutation (sort_values df) df.
Proof.
  induction df as [|r df IH]; simpl.
  - apply perm_nil.
  - apply perm_trans with (r :: sort_values df).
    + apply insert_row_perm.
    + apply perm_skip. exact IH.
Qed.

Lemma row_leb_undated_dated (r x : StockRow) :
  undated r -> dated x -> row_leb r x = false.
Proof.
  unfold undated, dated, row_leb. intros Hr Hx. rewrite Hr.
  destruct (validFrom x); [reflexivity | congruence].
Qed.

Lemma row_leb_dated_undated (r x : StockRow) :
  dated r -> undated x -> row_leb r x = true.
Proof.
  unfold undated, dated, row_leb. intros Hr Hx. rewrite Hx.
  destruct (validFrom r); [reflexivity | congruence].
Qed.

Lemma insert_row_undated (r : StockRow) (l : list StockRow) :
  undated r -> Forall undated l -> Forall undated (insert_row r l).
Proof.
  intros Hr Hl. apply Forall_forall. intros x Hx.
  apply (Permutation_in _ (insert_row_perm r l)) in Hx.
  destruct Hx as [<- | Hx]; [exact Hr|].
  rewrite Forall_forall in Hl. apply Hl. exact Hx.
Qed.

(** Inserting a row keeps the shape "dated rows, then undated rows". *)
Lemma insert_row_split (r : StockRow) (l1 l2 : list StockRow) :
  Forall dated l1 -> Forall undated l2 ->
  exists l1' l2', insert_row r (l1 ++ l2) = l1' ++ l2' /\
                  Forall dated l1' /\ Forall undated l2'.
Proof.
  intros H1 H2. induction H1 as [|x l1 Hx H1 IH]; simpl.
  - destruct (validFrom r) as [t|] eqn:Hr.
    + assert (Hd : dated r) by (unfold dated; congruence).
      exists [r], l2. split; [|split; [repeat constructor; exact Hd | exact H2]].
      destruct l2 as [|y l2]; [reflexivity|]. simpl.
      inversion H2; subst. rewrite row_leb_dated_undated; auto.
    + exists [], (insert_row r l2). split; [reflexivity|].
      split; [constructor | apply insert_row_undated; assumption].
  - destruct (row_leb r x) eqn:Hle.
    + assert (Hd : dated r).
      { unfold dated. intros Hr.
        rewrite (row_leb_undated_dated r x Hr Hx) in Hle. discriminate. }
      exists (r :: x :: l1), l2. split; [reflexivity|].
      split; [repeat constructor; assumption | exact H2].
    + destruct IH as (l1' & l2' & E & D & U).
      exists (x :: l1'), l2'. rewrite E. split; [reflexivity|].
      split; [constructor; assumption | exact U].
Qed.

Lemma sort_values_split (df : DataFrame) :
  exists l1 l2, sort_values df = l1 ++ l2 /\ Forall dated l1 /\ Forall undated l2.
Proof.
  induction df as [|r df IH]; simpl.
  - exists [], []. repeat split; constructor.
  - destruct IH as (l1 & l2 & E & D & U). rewrite E.
    apply insert_row_split; assumption.
Qed.

(** ** Group keys *)

Lemma key_compare_eq (k1 k2 : GroupKey) : key_compare k1 k2 = Eq <-> k1 = k2.
Proof.
  destruct k1 as [[[b1 p1] w1] c1], k2 as [[[b2 p2] w2] c2]. simpl.
  destruct (Z.compare_spec b1 b2); destruct (Z.compare_spec p1 p2);
    destruct (Z.compare_spec w1 w2); destruct (Z.compare_spec c1 c2);
    split; intros E; try discriminate; try (subst; reflexivity);
    inversion E; lia.
Qed.

Lemma key_compare_lt (k1 k2 : GroupKey) :
  key_compare k1 k2 = Lt <->
  let '(b1, p1, w1, c1) := k1 in
  let '(b2, p2, w2, c2) := k2 in
  b1 < b2 \/ (b1 = b2 /\ (p1 < p2 \/ (p1 = p2 /\ (w1 < w2 \/ (w1 = w2 /\ c1 < c2))))).
Proof.
  destruct k1 as [[[b1 p1] w1] c1], k2 as [[[b2 p2] w2] c2]. simpl.
  destruct (Z.compare_spec b1 b2); destruct (Z.compare_spec p1 p2);
    destruct (Z.compare_spec w1 w2); destruct (Z.compare_spec c1 c2);
    split; intros E; try discriminate; try reflexivity; lia.
Qed.

Lemma key_compare_gt (k1 k2 : GroupKey) :
  key_compare k1 k2 = Gt <-> key_lt k2 k1.
Proof.
  unfold key_lt. rewrite key_compare_lt.
  destruct k1 as [[[b1 p1] w1] c1], k2 as [[[b2 p2] w2] c2]. simpl.
  destruct (Z.compare_spec b1 b2); destruct (Z.compare_spec p1 p2);
    destruct (Z.compare_spec w1 w2); destruct (Z.compare_spec c1 c2);
    split; intros E; try discriminate; try reflexivity; lia.
Qed.

Lemma key_lt_trans (k1 k2 k3 : GroupKey) : key_lt k1 k2 -> key_lt k2 k3 -> key_lt k1 k3.
Proof.
  unfold key_lt. rewrite !key_compare_lt.
  destruct k1 as [[[b1 p1] w1] c1], k2 as [[[b2 p2] w2] c2], k3 as [[[b3 p3] w3] c3].
  lia.
Qed.

Lemma key_lt_irrefl (k : GroupKey) : ~ key_lt k k.
Proof.
  unfold key_lt. rewrite key_compare_lt. destruct k as [[[b p] w] c]. lia.
Qed.

Lemma key_eqb_eq (k1 k2 : GroupKey) : key_eqb k1 k2 = true <-> k1 = k2.
Proof.
  unfold key_eqb. rewrite <- key_compare_eq.
  destruct (key_compare k1 k2); split; congruence.
Qed.

Lemma key_eqb_refl (k : GroupKey) : key_eqb k k = true.
Proof. apply key_eqb_eq. reflexivity. Qed.

Lemma In_insert_key (k k' : GroupKey) (ks : list GroupKey) :
  In k (insert_key k' ks) <-> k = k' \/ In k ks.
Proof.
  induction ks as [|x ks IH]; simpl.
  - intuition.
  - destruct (key_compare k' x) eqn:E; simpl.
    + apply key_compare_eq in E. subst x. intuition.
    + intuition.
    + rewrite IH. intuition.
Qed.

Lemma insert_key_sorted (k : GroupKey) (ks : list GroupKey) :
  StronglySorted key_lt ks -> StronglySorted key_lt (insert_key k ks).
Proof.
  induction 1 as [|x ks Hs IH Hx]; simpl.
  - repeat constructor.
  - destruct (key_compare k x) eqn:E.
    + constructor; assumption.
    + constructor; [constructor; assumption|].
      constructor; [exact E|].
      rewrite Forall_forall in Hx |- *. intros y Hy.
      apply key_lt_trans with x; [exact E | apply Hx; exact Hy].
    + constructor; [exact IH|].
      apply Forall_forall. intros y Hy. apply In_insert_key in Hy.
      destruct Hy as [-> | Hy].
      * apply key_compare_gt. exact E.
      * rewrite Forall_forall in Hx. apply Hx. exact Hy.
Qed.

Lemma group_keys_sorted (df : DataFrame) : StronglySorted key_lt (group_keys df).
Proof.
  induction df as [|r df IH]; simpl.
  - constructor.
  - destruct (group_key r); [apply insert_key_sorted|]; exact IH.
Qed.

Lemma sorted_keys_NoDup (ks : list GroupKey) : StronglySorted key_lt ks -> NoDup ks.
Proof.
  induction 1 as [|x ks Hs IH Hx].
  - constructor.
  - constructor; [|exact IH]. intros Hin.
    rewrite Forall_forall in Hx. exact (key_lt_irrefl x (Hx x Hin)).
Qed.

Lemma group_keys_In (df : DataFrame) (k : GroupKey) :
  In k (group_keys df) <-> exists r, In r df /\ group_key r = Some k.
Proof.
  induction df as [|r df IH]; simpl.
  - split; [tauto | intros (r & [] & _)].
  - destruct (group_key r) as [k'|] eqn:E.
    + rewrite In_insert_key, IH. split.
      * intros [-> | (r' & Hr' & E')]; [exists r; auto | exists r'; auto].
      * intros (r' & [<- | Hr'] & E'); [left; congruence | right; exists r'; auto].
    + rewrite IH. split.
      * intros (r' & Hr' & E'). exists r'; auto.
      * intros (r' & [<- | Hr'] & E'); [congruence | exists r'; auto].
Qed.

Lemma filter_perm {A} (f : A -> bool) (l l' : list A) :
  Permutation l l' -> Permutation (filter f l) (filter f l').
Proof.
  induction 1 as [|x l l' _ IH|x y l|l l' l'' _ IH1 _ IH2]; simpl.
  - apply perm_nil.
  - destruct (f x); [apply perm_skip|]; exact IH.
  - destruct (f x), (f y); try apply Permutation_refl. apply perm_swap.
  - apply perm_trans with (filter f l'); assumption.
Qed.

Lemma filter_all {A} (f : A -> bool) (l : list A) :
  Forall (fun x => f x = true) l -> filter f l = l.
Proof.
  induction 1 as [|x l Hx _ IH]; simpl; [reflexivity|].
  rewrite Hx, IH. reflexivity.
Qed.

(** A strictly sorted list is determined by its elements. *)
Lemma sorted_keys_unique (l l' : list GroupKey) :
  StronglySorted key_lt l -> StronglySorted key_lt l' ->
  (forall k, In k l <-> In k l') -> l = l'.
Proof.
  intros Hl. revert l'. induction Hl as [|x l Hs IH Hx]; intros l' Hl' Hin.
  - destruct l' as [|y l']; [reflexivity|].
    destruct (proj2 (Hin y) (or_introl eq_refl)).
  - destruct Hl' as [|y l' Hs' Hy].
    + destruct (proj1 (Hin x) (or_introl eq_refl)).
    + rewrite Forall_forall in Hx, Hy.
      assert (Exy : x = y).
      { destruct (proj1 (Hin x) (or_introl eq_refl)) as [E | Hxl']; [auto|].
        destruct (proj2 (Hin y) (or_introl eq_refl)) as [E | Hyl]; [auto|].
        exfalso. apply (key_lt_irrefl x).
        apply key_lt_trans with y; [apply Hx; exact Hyl | apply Hy; exact Hxl']. }
      subst y. f_equal. apply IH; [exact Hs'|].
      intros k. split; intros Hk.
      * destruct (proj1 (Hin k) (or_intror Hk)) as [E | H]; [|exact H].
        subst k. exfalso. exact (key_lt_irrefl x (Hx x Hk)).
      * destruct (proj2 (Hin k) (or_intror Hk)) as [E | H]; [|exact H].
        subst k. exfalso. exact (key_lt_irrefl x (Hy x Hk)).
Qed.

Lemma group_keys_perm (df df' : DataFrame) :
  Permutation df df' -> group_keys df = group_keys df'.
Proof.
  intros P. apply sorted_keys_unique; try apply group_keys_sorted.
  intros k. rewrite !group_keys_In. split; intros (r & Hr & Ek); exists r;
    (split; [|exact Ek]).
  - apply (Permutation_in _ P Hr).
  - apply (Permutation_in _ (Permutation_sym P) Hr).
Qed.

(** ** Machine arithmetic *)

Lemma wrap64_small (z : Z) : - 2 ^ 63 <= z < 2 ^ 63 -> wrap64 z = z.
Proof.
  intros H. unfold wrap64. rewrite Z.mod_small by lia. lia.
Qed.

Lemma float_of_small (z : Z) : Z.abs z < 2 ^ 53 -> float_of z = z.
Proof.
  intros H. unfold float_of. apply Z.ltb_lt in H. rewrite H. reflexivity.
Qed.

(** Rounding keeps a positive number positive. *)
Lemma float_of_pos (z : Z) : 0 < z -> 0 < float_of z.
Proof.
  intros Hz. unfold float_of.
  destruct (Z.abs z <? 2 ^ 53) eqn:E; [exact Hz|].
  apply Z.ltb_ge in E. rewrite Z.abs_eq in * by lia.
  rewrite Z.sgn_pos by exact Hz. rewrite Z.mul_1_l.
  assert (Hlog : 53 <= Z.log2 z) by (apply Z.log2_le_pow2; lia).
  set (e := Z.log2 z - 52).
  assert (He : 0 < 2 ^ e) by (apply Z.pow_pos_nonneg; unfold e; lia).
  assert (Hq : 1 <= z / 2 ^ e).
  { apply Z.div_le_lower_bound; [exact He|]. rewrite Z.mul_1_r.
    apply Z.le_trans with (2 ^ Z.log2 z).
    - apply Z.pow_le_mono_r; unfold e; lia.
    - apply Z.log2_spec. exact Hz. }
  apply Z.mul_pos_pos; [|exact He].
  destruct (z mod 2 ^ e <? 2 ^ (e - 1)); [lia|].
  destruct (2 ^ (e - 1) <? z mod 2 ^ e); [lia|].
  destruct (Z.even (z / 2 ^ e)); lia.
Qed.

Lemma exact_sum_perm (l l' : list StockRow) :
  Permutation l l' -> exact_sum l = exact_sum l'.
Proof.
  induction 1 as [|x l l' _ IH|x y l|l l' l'' _ IH1 _ IH2]; simpl;
    try lia; congruence.
Qed.

Lemma exact_sum_positive (rows : list StockRow) :
  Forall (fun r => 0 < quantity r) rows -> rows <> [] -> 0 < exact_sum rows.
Proof.
  intros H. induction H as [|r rows Hr H IH]; [congruence|]. intros _. simpl.
  destruct rows as [|r' rows'].
  - simpl. lia.
  - assert (0 < exact_sum (r' :: rows')) by (apply IH; discriminate). lia.
Qed.

Lemma exact_sum_filter_le (f : StockRow -> bool) (rows : list StockRow) :
  Forall (fun r => 0 < quantity r) rows ->
  0 <= exact_sum (filter f rows) <= exact_sum rows.
Proof.
  induction 1 as [|r rows Hr _ IH]; simpl; [lia|].
  destruct (f r); simpl; lia.
Qed.

(** Below 2^53 both dtypes add exactly. *)
Lemma agg_sum_small (dt : Dtype) (rows : list StockRow) :
  Forall (fun r => 0 < quantity r) rows -> exact_sum rows < 2 ^ 53 ->
  agg_sum dt rows = exact_sum rows.
Proof.
  intros Hpos Hsum.
  assert (Hnn : 0 <= exact_sum rows).
  { pose proof (exact_sum_filter_le (fun _ => true) rows Hpos) as H.
    rewrite filter_all in H by (apply Forall_forall; reflexivity). lia. }
  destruct dt; simpl.
  - apply wrap64_small. lia.
  - assert (E : fold_right (fun r acc => float_of (quantity r) + acc) 0 rows
                = exact_sum rows).
    { clear Hnn. induction Hpos as [|r rows Hr Hpos IH]; simpl; [reflexivity|].
      simpl in Hsum.
      assert (0 <= exact_sum rows).
      { pose proof (exact_sum_filter_le (fun _ => true) rows Hpos) as H.
        rewrite filter_all in H by (apply Forall_forall; reflexivity). lia. }
      rewrite IH by lia. rewrite float_of_small by lia. reflexivity. }
    rewrite E. apply float_of_small. lia.
Qed.

(** ** Aggregation *)

Lemma in_group_iff (k : GroupKey) (r : StockRow) :
  in_group k r = true <-> group_key r = Some k.
Proof.
  unfold in_group. destruct (group_key r) as [k'|].
  - rewrite key_eqb_eq. split; congruence.
  - split; discriminate.
Qed.

Lemma key_of_aggregate (dt : Dtype) (df : DataFrame) (k : GroupKey) :
  key_of_group (aggregate dt df k) = k.
Proof. destruct k as [[[b p] w] c]. reflexivity. Qed.

Lemma countPu_of_aggregate (dt : Dtype) (df : DataFrame) (k : GroupKey) :
  grp_countPu (aggregate dt df k) = agg_sum dt (filter (in_group k) df).
Proof. destruct k as [[[b p] w] c]. reflexivity. Qed.

Lemma groupby_agg_keys (dt : Dtype) (df : DataFrame) :
  map key_of_group (groupby_agg dt df) = group_keys df.
Proof.
  unfold groupby_agg. rewrite map_map.
  rewrite (map_ext _ (fun k => k)) by apply key_of_aggregate.
  apply map_id.
Qed.

Lemma batch_groups_keys (df : DataFrame) :
  map key_of_group (batch_groups_of df) = group_keys (filter_rows df).
Proof.
  unfold batch_groups_of. rewrite groupby_agg_keys.
  apply group_keys_perm, sort_values_perm.
Qed.

Lemma sort_values_positive (df : DataFrame) :
  Forall (fun r => 0 < quantity r) (sort_values (filter_rows df)).
Proof.
  apply Forall_forall. intros r Hr.
  apply (Permutation_in _ (sort_values_perm _)) in Hr.
  pose proof (filter_rows_positive df) as H. rewrite Forall_forall in H.
  apply H. exact Hr.
Qed.

(** With small quantities every group holds the whole quantity of its
    rows, which is positive and below 2^53. *)
Lemma group_small (df : DataFrame) (k : GroupKey) :
  small_quantities df -> In k (group_keys (filter_rows df)) ->
  agg_sum (countPu_dtype df) (filter (in_group k) (sort_values (filter_rows df)))
  = group_total (filter_rows df) k /\
  0 < group_total (filter_rows df) k < 2 ^ 53.
Proof.
  intros Hsmall Hk. unfold small_quantities in Hsmall. unfold group_total.
  pose proof (filter_rows_positive df) as Hpos.
  pose proof (exact_sum_filter_le (in_group k) _ Hpos) as Hle.
  assert (Hperm : exact_sum (filter (in_group k) (sort_values (filter_rows df)))
                  = exact_sum (filter (in_group k) (filter_rows df))).
  { apply exact_sum_perm, filter_perm, sort_values_perm. }
  split.
  - rewrite agg_sum_small; [exact Hperm | | lia].
    apply Forall_forall. intros r Hr. apply filter_In in Hr.
    pose proof (sort_values_positive df) as H. rewrite Forall_forall in H.
    apply H, Hr.
  - split; [|lia]. apply exact_sum_positive.
    + apply Forall_forall. intros r Hr. apply filter_In in Hr.
      rewrite Forall_forall in Hpos. apply Hpos, Hr.
    + apply group_keys_In in Hk. destruct Hk as (r & Hr & Ek). intros E.
      assert (Hin : In r (filter (in_group k) (filter_rows df))).
      { apply filter_In. split; [exact Hr | apply in_group_iff; exact Ek]. }
      rewrite E in Hin. exact Hin.
Qed.

Lemma batch_groups_small (df : DataFrame) :
  small_quantities df ->
  Forall (fun g => placed g = true) (batch_groups_of df) /\
  map line_of_group (batch_groups_of df)
  = map (exact_line (filter_rows df)) (group_keys (filter_rows df)).
Proof.
  intros Hsmall.
  assert (Hkeys : group_keys (sort_values (filter_rows df))
                  = group_keys (filter_rows df))
    by apply group_keys_perm, sort_values_perm.
  unfold batch_groups_of, groupby_agg. rewrite Hkeys. split.
  - apply Forall_map, Forall_forall. intros k Hk.
    unfold placed. rewrite countPu_of_aggregate.
    destruct (group_small df k Hsmall Hk) as (E & Hpos & _).
    rewrite E. apply Z.ltb_lt. exact Hpos.
  - rewrite map_map. apply map_ext_in. intros k Hk.
    destruct (group_small df k Hsmall Hk) as (E & Hpos & Hlt).
    unfold line_of_group, exact_line. rewrite countPu_of_aggregate, E.
    rewrite float_of_small by lia.
    destruct k as [[[b p] w] c]. reflexivity.
Qed.

(** ** The placement loop when [items_per_invoice >= 1] *)

Lemma close_invoice_invoices clock row s :
  exists p, invoices (close_invoice clock row s) = invoices s ++ [p] /\
            tbrDtoList p = current_items s.
Proof.
  unfold close_invoice, create_invoice_payload. simpl.
  eexists. split; reflexivity.
Qed.

Lemma close_invoice_current clock row s :
  current_items (close_invoice clock row s) = [].
Proof. reflexivity. Qed.

Lemma placed_lines_close clock row s :
  placed_lines (close_invoice clock row s) = placed_lines s.
Proof.
  unfold placed_lines. rewrite close_invoice_current.
  destruct (close_invoice_invoices clock row s) as (p & -> & Ep).
  rewrite map_app, concat_app. simpl. rewrite Ep, !app_nil_r. reflexivity.
Qed.

(** One group: a group whose quantity is positive is placed as one line,
    any other group leaves the state as it is. *)
Lemma place_loop_ok clock items_per_invoice row s fuel :
  walk_inv items_per_invoice s -> (1 <= fuel)%nat ->
  exists s', place_loop fuel clock items_per_invoice row (grp_countPu row) s = Done s' /\
             placed_lines s' =
               placed_lines s ++ (if placed row then [line_of_group row] else []) /\
             walk_inv items_per_invoice s'.
Proof.
  intros [Hroom Hfull] Hfuel. unfold placed.
  destruct fuel as [|fuel]; [lia|]. simpl.
  destruct (0 <? grp_countPu row) eqn:Hq.
  2:{ exists s. rewrite app_nil_r. repeat split; assumption. }
  unfold place_body.
  assert (Hsp : (0 <? items_per_invoice - Z.of_nat (length (current_items s))) = true)
    by (apply Z.ltb_lt; lia).
  rewrite Hsp. cbn [current_items].
  fold (line_of_group row).
  set (line := line_of_group row).
  set (s1 := {| invoices := invoices s; current_items := current_items s ++ [line];
                world := world s |}).
  assert (Hdone : forall s2, place_loop fuel clock items_per_invoice row 0 s2 = Done s2)
    by (intros s2; destruct fuel; reflexivity).
  assert (Hl1 : placed_lines s1 = placed_lines s ++ [line]).
  { unfold placed_lines, s1. simpl. rewrite app_assoc. reflexivity. }
  destruct (items_per_invoice <=? Z.of_nat (length (current_items s ++ [line]))) eqn:Hcap.
  - exists (close_invoice clock row s1). rewrite Hdone.
    split; [reflexivity|]. split.
    + rewrite placed_lines_close. exact Hl1.
    + apply Z.leb_le in Hcap. rewrite length_app in Hcap. simpl in Hcap.
      split.
      * rewrite close_invoice_current. simpl. lia.
      * destruct (close_invoice_invoices clock row s1) as (p & -> & Ep).
        apply Forall_app. split; [exact Hfull|]. constructor; [|constructor].
        unfold line_count. rewrite Ep. unfold s1. simpl.
        rewrite length_app. simpl. lia.
  - exists s1. rewrite Hdone. split; [reflexivity|]. split; [exact Hl1|].
    apply Z.leb_gt in Hcap. split; [exact Hcap | exact Hfull].
Qed.

Lemma walk_groups_ok clock items_per_invoice fuel batch_groups :
  (1 <= fuel)%nat ->
  forall s, walk_inv items_per_invoice s ->
  exists s', walk_groups fuel clock items_per_invoice batch_groups s = Done s' /\
             placed_lines s' =
               placed_lines s ++ map line_of_group (filter placed batch_groups) /\
             walk_inv items_per_invoice s'.
Proof.
  intros Hfuel. induction batch_groups as [|row rest IH]; intros s Hs; simpl.
  - exists s. rewrite app_nil_r. auto.
  - destruct (place_loop_ok clock items_per_invoice row s fuel Hs Hfuel)
      as (s1 & E1 & L1 & I1).
    rewrite E1. destruct (IH s1 I1) as (s2 & E2 & L2 & I2).
    exists s2. split; [exact E2|]. split; [|exact I2].
    rewrite L2, L1, <- app_assoc. destruct (placed row); reflexivity.
Qed.

Lemma full_but_last_of_full n l : Forall (fun i => line_count i = n) l -> full_but_last n l.
Proof.
  intros H pre x y post ->. apply Forall_app in H. destruct H as [_ H].
  inversion H; assumption.
Qed.

Lemma full_but_last_snoc n l p :
  Forall (fun i => line_count i = n) l -> full_but_last n (l ++ [p]).
Proof.
  intros H pre x y post E.
  assert (Hin : In x l).
  { destruct (@exists_last _ (y :: post)) as (post' & z & Ez); [discriminate|].
    rewrite Ez in E.
    replace (pre ++ x :: post' ++ [z]) with ((pre ++ x :: post') ++ [z]) in E
      by (rewrite <- app_assoc; reflexivity).
    apply app_inj_tail in E. destruct E as [-> _].
    apply in_or_app. right. left. reflexivity. }
  rewrite Forall_forall in H. apply H. exact Hin.
Qed.

Lemma full_but_last_prefix n kept dropped :
  full_but_last n (kept ++ dropped) -> full_but_last n kept.
Proof.
  intros H pre x y post ->. apply (H pre x y (post ++ dropped)).
  rewrite <- app_assoc. reflexivity.
Qed.

Lemma full_but_last_init n l pre last :
  full_but_last n l -> l = pre ++ [last] ->
  Forall (fun i => line_count i = n) pre.
Proof.
  intros H ->. apply Forall_forall. intros x Hx.
  apply in_split in Hx. destruct Hx as (a & b & ->).
  destruct (b ++ [last]) as [|y post] eqn:E.
  - destruct b; discriminate.
  - apply (H a x y post). rewrite <- app_assoc. simpl. rewrite E. reflexivity.
Qed.

(** *** Truncation *)

Lemma slice_to_prefix {A} (n : Z) (l : list A) :
  exists dropped, l = slice_to n l ++ dropped.
Proof.
  unfold slice_to. destruct (0 <=? n); eexists; symmetry; apply firstn_skipn.
Qed.

Lemma limit_invoices_prefix {A} (max_invoices : option Z) (l : list A) :
  exists dropped, l = limit_invoices max_invoices l ++ dropped.
Proof.
  destruct max_invoices as [n|]; simpl.
  - destruct (n =? 0).
    + exists []. rewrite app_nil_r. reflexivity.
    + apply slice_to_prefix.
  - exists []. rewrite app_nil_r. reflexivity.
Qed.

Lemma limit_invoices_length {A} (n : Z) (l : list A) :
  1 <= n -> Z.of_nat (length (limit_invoices (Some n) l)) <= n.
Proof.
  intros Hn. simpl. destruct (n =? 0) eqn:E; [apply Z.eqb_eq in E; lia|].
  unfold slice_to. destruct (0 <=? n) eqn:E'; [|apply Z.leb_gt in E'; lia].
  rewrite length_firstn. lia.
Qed.

Lemma limit_invoices_nil {A} (max_invoices : option Z) :
  limit_invoices max_invoices (@nil A) = [].
Proof.
  destruct max_invoices as [n|]; simpl; [|reflexivity].
  destruct (n =? 0); [reflexivity|]. unfold slice_to.
  destruct (0 <=? n); apply firstn_nil.
Qed.

(** ** [prepare_invoices] when [items_per_invoice >= 1] *)

(** With one unit of fuel the function returns; the untruncated list [full]
    carries one line per placed group, in group order, and only its last
    invoice may have fewer than [items_per_invoice] lines. *)
Lemma prepare_invoices_ok fuel clock df items_per_invoice w :
  1 <= items_per_invoice -> (1 <= fuel)%nat ->
  exists full w',
    (forall max_invoices,
        prepare_invoices fuel clock df items_per_invoice max_invoices w
        = Done (limit_invoices max_invoices full, w')) /\
    concat (map tbrDtoList full)
    = map line_of_group (filter placed (batch_groups_of df)) /\
    Forall (fun i => line_count i <= items_per_invoice) full /\
    full_but_last items_per_invoice full.
Proof.
  intros Hn Hfuel. unfold prepare_invoices. fold (batch_groups_of df).
  destruct (filter_rows df) as [|r0 rows] eqn:Ef.
  - exists [], w. simpl. split; [|split; [|split]].
    + intros m. rewrite limit_invoices_nil. reflexivity.
    + unfold batch_groups_of. rewrite Ef. reflexivity.
    + constructor.
    + intros pre x y post E. destruct pre; discriminate.
  - cbn [is_nonempty negb].
    set (s0 := {| invoices := []; current_items := []; world := w |}).
    assert (I0 : walk_inv items_per_invoice s0).
    { split; simpl; [lia | constructor]. }
    destruct (walk_groups_ok clock items_per_invoice fuel (batch_groups_of df)
                Hfuel s0 I0) as (s & E & L & [Hroom Hfull]).
    rewrite E. unfold placed_lines in L. simpl in L.
    assert (Hle : Forall (fun i => line_count i <= items_per_invoice) (invoices s)).
    { eapply Forall_impl; [|exact Hfull]. simpl. intros i Hi. lia. }
    destruct (current_items s) as [|x items] eqn:Ec.
    + exists (invoices s), (world s). simpl. rewrite app_nil_r in L.
      split; [reflexivity|]. split; [exact L|]. split; [exact Hle|].
      apply full_but_last_of_full. exact Hfull.
    + cbn [is_nonempty].
      destruct (rev (batch_groups_of df)) as [|last_row rest] eqn:Er.
      * exfalso. apply (f_equal (@rev _)) in Er. rewrite rev_involutive in Er.
        simpl in Er. rewrite Er in E. simpl in E. inversion E. subst s.
        discriminate.
      * destruct (close_invoice_invoices clock last_row s) as (p & Ei & Ep).
        exists (invoices (close_invoice clock last_row s)),
               (world (close_invoice clock last_row s)).
        split; [reflexivity|]. rewrite Ei. split; [|split].
        -- rewrite map_app, concat_app. simpl. rewrite Ep, Ec, app_nil_r. exact L.
        -- apply Forall_app. split; [exact Hle|]. constructor; [|constructor].
           unfold line_count. rewrite Ep, Ec. lia.
        -- apply full_but_last_snoc. exact Hfull.
Qed.

(** With small quantities every group is placed, with its whole quantity. *)
Lemma prepare_invoices_small fuel clock df items_per_invoice w :
  1 <= items_per_invoice -> (1 <= fuel)%nat -> small_quantities df ->
  exists full w',
    (forall max_invoices,
        prepare_invoices fuel clock df items_per_invoice max_invoices w
        = Done (limit_invoices max_invoices full, w')) /\
    concat (map tbrDtoList full)
    = map (exact_line (filter_rows df)) (group_keys (filter_rows df)).
Proof.
  intros Hn Hfuel Hsmall.
  destruct (prepare_invoices_ok fuel clock df items_per_invoice w Hn Hfuel)
    as (full & w' & Hrun & Hlines & _).
  destruct (batch_groups_small df Hsmall) as (Hall & Hmap).
  exists full, w'. split; [exact Hrun|].
  rewrite Hlines, filter_all by exact Hall. exact Hmap.
Qed.

(** ** Sums per batch id *)

Lemma sumZ_ext {K} (f g : K -> Z) ks :
  (forall k, In k ks -> f k = g k) -> sumZ f ks = sumZ g ks.
Proof.
  induction ks as [|k ks IH]; simpl; intros H; [reflexivity|].
  rewrite (H k), IH; auto.
Qed.

Lemma sumZ_add {K} (f g : K -> Z) ks :
  sumZ (fun k => f k + g k) ks = sumZ f ks + sumZ g ks.
Proof. induction ks as [|k ks IH]; simpl; lia. Qed.

Lemma sumZ_zero {K} (f : K -> Z) ks :
  (forall k, In k ks -> f k = 0) -> sumZ f ks = 0.
Proof.
  induction ks as [|k ks IH]; simpl; intros H; [reflexivity|].
  rewrite (H k), IH; auto.
Qed.

Lemma sumZ_single (k0 : GroupKey) (c : Z) ks :
  NoDup ks -> In k0 ks ->
  sumZ (fun k => if key_eqb k0 k then c else 0) ks = c.
Proof.
  induction 1 as [|k ks Hk Hnd IH]; simpl; [tauto|].
  intros [-> | Hin].
  - rewrite key_eqb_refl, sumZ_zero; [lia|].
    intros k Hk'. destruct (key_eqb k0 k) eqn:E; [|reflexivity].
    apply key_eqb_eq in E. subst k. contradiction.
  - rewrite IH by exact Hin.
    destruct (key_eqb k0 k) eqn:E; [|lia].
    apply key_eqb_eq in E. subst k. contradiction.
Qed.

Lemma line_sum_groups (b : Z) (df : DataFrame) (ks : list GroupKey) :
  line_sum b (map (exact_line df) ks) =
  sumZ (fun k => if key_batch k =? b then group_total df k else 0) ks.
Proof.
  induction ks as [|k ks IH]; simpl; [reflexivity|].
  rewrite IH. destruct (key_batch k =? b); lia.
Qed.

Lemma group_key_batch (r : StockRow) (k : GroupKey) :
  group_key r = Some k -> batchId r = Some (key_batch k).
Proof.
  unfold group_key.
  destruct (batchId r), (patId r), (warehouseId r), (contractorId r);
    try discriminate.
  intros E. inversion E. reflexivity.
Qed.

Lemma group_sum_rows (b : Z) (ks : list GroupKey) (df : DataFrame) :
  NoDup ks ->
  (forall r k, In r df -> group_key r = Some k -> In k ks) ->
  sumZ (fun k => if key_batch k =? b then group_total df k else 0) ks
  = row_sum b (filter keyed df).
Proof.
  unfold group_total.
  intros Hnd. induction df as [|r df IH]; intros Hcov.
  - simpl. apply sumZ_zero. intros k _. destruct (key_batch k =? b); reflexivity.
  - assert (Hcov' : forall r' k, In r' df -> group_key r' = Some k -> In k ks)
      by (intros r' k Hr'; apply Hcov; right; exact Hr').
    specialize (IH Hcov'). simpl. unfold keyed at 1.
    destruct (group_key r) as [k0|] eqn:Ek.
    + simpl. rewrite (group_key_batch r k0 Ek), <- IH.
      rewrite (sumZ_ext _
        (fun k => (if key_batch k =? b then exact_sum (filter (in_group k) df) else 0)
                  + (if key_eqb k0 k
                     then (if key_batch k0 =? b then quantity r else 0) else 0))).
      * rewrite sumZ_add, sumZ_single; [|exact Hnd|].
        -- destruct (key_batch k0 =? b); lia.
        -- apply (Hcov r k0); [left; reflexivity | exact Ek].
      * intros k _. unfold in_group at 1. rewrite Ek.
        destruct (key_eqb k0 k) eqn:E.
        -- apply key_eqb_eq in E. subst k. simpl.
           destruct (key_batch k0 =? b); lia.
        -- destruct (key_batch k =? b); lia.
    + rewrite <- IH. apply sumZ_ext. intros k _.
      unfold in_group at 1. rewrite Ek. reflexivity.
Qed.

Lemma exact_lines_sum (b : Z) (df : DataFrame) :
  line_sum b (map (exact_line df) (group_keys df)) = row_sum b (filter keyed df).
Proof.
  rewrite line_sum_groups. apply group_sum_rows.
  - apply sorted_keys_NoDup, group_keys_sorted.
  - intros r k Hr Ek. apply group_keys_In. exists r. auto.
Qed.

(** ** Divergence of the placement loop when [items_per_invoice <= 0] *)

(** With no room and nothing to close, an iteration changes nothing. *)
Lemma place_body_stalls clock items_per_invoice row q s :
  items_per_invoice <= 0 -> current_items s = [] ->
  place_body clock items_per_invoice row q s = (q, s).
Proof.
  intros Hn Hc. unfold place_body. rewrite Hc. simpl.
  destruct (0 <? items_per_invoice - 0) eqn:E; [apply Z.ltb_lt in E; lia|].
  reflexivity.
Qed.

Lemma place_loop_stalls clock items_per_invoice row q s fuel :
  items_per_invoice <= 0 -> current_items s = [] -> 0 < q ->
  place_loop fuel clock items_per_invoice row q s = OutOfFuel.
Proof.
  intros Hn Hc Hq. apply Z.ltb_lt in Hq.
  induction fuel as [|fuel IH]; simpl; rewrite Hq; [reflexivity|].
  rewrite place_body_stalls by assumption. exact IH.
Qed.

Lemma group_keys_nil (df : DataFrame) :
  group_keys df = [] <-> filter keyed df = [].
Proof.
  split; intros E.
  - destruct (filter keyed df) as [|r l] eqn:Ef; [reflexivity|exfalso].
    assert (Hr : In r (filter keyed df)) by (rewrite Ef; left; reflexivity).
    apply filter_In in Hr. destruct Hr as [Hr Hk]. unfold keyed in Hk.
    destruct (group_key r) as [k|] eqn:Ek; [|discriminate].
    assert (Hin : In k (group_keys df)) by (apply group_keys_In; exists r; auto).
    rewrite E in Hin. exact Hin.
  - destruct (group_keys df) as [|k ks] eqn:Eks; [reflexivity|exfalso].
    assert (Hin : In k (group_keys df)) by (rewrite Eks; left; reflexivity).
    apply group_keys_In in Hin. destruct Hin as (r & Hr & Ek).
    assert (Hf : In r (filter keyed df)).
    { apply filter_In. split; [exact Hr|]. unfold keyed. rewrite Ek. reflexivity. }
    rewrite E in Hf. exact Hf.
Qed.

Lemma batch_groups_nil (df : DataFrame) :
  batch_groups_of df = [] <-> filter keyed (filter_rows df) = [].
Proof.
  rewrite <- group_keys_nil, <- batch_groups_keys. split.
  - intros ->. reflexivity.
  - intros E. destruct (batch_groups_of df); [reflexivity | discriminate].
Qed.

Lemma prepare_invoices_no_groups fuel clock df items_per_invoice max_invoices w :
  batch_groups_of df = [] ->
  prepare_invoices fuel clock df items_per_invoice max_invoices w = Done ([], w).
Proof.
  intros E. unfold prepare_invoices. fold (batch_groups_of df). rewrite E.
  destruct (is_nonempty (filter_rows df)); simpl; [|reflexivity].
  rewrite limit_invoices_nil. reflexivity.
Qed.

Lemma prepare_invoices_stalls fuel clock df items_per_invoice max_invoices w :
  items_per_invoice <= 0 -> small_quantities df -> batch_groups_of df <> [] ->
  prepare_invoices fuel clock df items_per_invoice max_invoices w = OutOfFuel.
Proof.
  intros Hn Hsmall Hg. unfold prepare_invoices. fold (batch_groups_of df).
  destruct (filter_rows df) as [|r0 rows] eqn:Ef.
  - exfalso. apply Hg. apply batch_groups_nil. rewrite Ef. reflexivity.
  - cbn [is_nonempty negb].
    destruct (batch_groups_small df Hsmall) as (Hall & _).
    destruct (batch_groups_of df) as [|g gs]; [congruence|].
    inversion Hall as [|? ? Hg0 _]; subst. simpl.
    rewrite place_loop_stalls; auto. apply Z.ltb_lt. exact Hg0.
Qed.

(** * The claims *)

(** ** The worked example: five rows of one batch, line cap 2 *)

Example five_rows_one_line :
  lines_of (prepare_invoices 1 clock0 five_rows 2 None world0) = Done [[(7, 15)]].
Proof. reflexivity. Qed.

(** ** C1 *)

(** C1, as stated, fails once the arithmetic of the column shows.  Two
    rows of one group with 2^62 units each are an int64 column whose sum
    wraps to a negative number: the loop is not entered and the group gets
    no line.  A row of 2^53 + 1 units is placed with 2^53 units, because
    [float] rounds. *)
Lemma group_quantity_not_kept :
  (length (batch_groups_of wrapping_rows) = 1%nat /\
   group_total (filter_rows wrapping_rows) (7, 1, 1, 9) = 2 ^ 63 /\
   lines_of (prepare_invoices 1 clock0 wrapping_rows 2 None world0) = Done []) /\
  (group_total (filter_rows rounding_rows) (7, 1, 1, 9) = 2 ^ 53 + 1 /\
   lines_of (prepare_invoices 1 clock0 rounding_rows 2 None world0)
   = Done [[(7, 2 ^ 53)]]).
Proof. repeat split. Qed.

(** C1, amended. With [items_per_invoice >= 1], no truncation and
    quantities that add up to less than 2^53, [prepare_invoices] returns,
    and the lines of the returned invoices, read invoice by invoice, are
    exactly one line per aggregated group, in group order, each carrying
    the group's batch id and the whole quantity of the group's rows: no
    group is split into several lines or over several invoices. *)
Theorem group_never_split fuel clock df items_per_invoice w :
  1 <= items_per_invoice -> (1 <= fuel)%nat -> small_quantities df ->
  exists full w',
    prepare_invoices fuel clock df items_per_invoice None w = Done (full, w') /\
    map key_of_group (batch_groups_of df) = group_keys (filter_rows df) /\
    concat (map tbrDtoList full)
    = map (exact_line (filter_rows df)) (group_keys (filter_rows df)).
Proof.
  intros Hn Hfuel Hsmall.
  destruct (prepare_invoices_small fuel clock df items_per_invoice w Hn Hfuel Hsmall)
    as (full & w' & Hrun & Hlines).
  exists full, w'. split; [apply (Hrun None)|].
  split; [apply batch_groups_keys | exact Hlines].
Qed.

Lemma group_never_split_witness :
  1 <= 2 /\ (1 <= 1)%nat /\ small_quantities five_rows /\
  exists full w',
    prepare_invoices 1 clock0 five_rows 2 None world0 = Done (full, w') /\
    map key_of_group (batch_groups_of five_rows) = group_keys (filter_rows five_rows) /\
    concat (map tbrDtoList full)
    = map (exact_line (filter_rows five_rows)) (group_keys (filter_rows five_rows)).
Proof.
  split; [lia|]. split; [lia|]. split; [reflexivity|].
  apply (group_never_split 1 clock0 five_rows 2 world0); [lia | lia | reflexivity].
Defined.

(** ** C2 *)

(** C2. With [items_per_invoice >= 1], whatever [max_invoices] is,
    [prepare_invoices] returns a list in which every invoice has at most
    [items_per_invoice] lines and every invoice but the last has exactly
    that many. *)
Theorem line_cap_respected fuel clock df items_per_invoice max_invoices w :
  1 <= items_per_invoice -> (1 <= fuel)%nat ->
  exists result w',
    prepare_invoices fuel clock df items_per_invoice max_invoices w
      = Done (result, w') /\
    Forall (fun i => line_count i <= items_per_invoice) result /\
    (forall pre last, result = pre ++ [last] ->
       Forall (fun i => line_count i = items_per_invoice) pre).
Proof.
  intros Hn Hfuel.
  destruct (prepare_invoices_ok fuel clock df items_per_invoice w Hn Hfuel)
    as (full & w' & Hrun & _ & Hle & Hfull).
  exists (limit_invoices max_invoices full), w'.
  split; [apply Hrun|].
  destruct (limit_invoices_prefix max_invoices full) as (dropped & E).
  rewrite E in Hle, Hfull. split.
  - apply Forall_app in Hle. apply Hle.
  - intros pre last Ep. eapply full_but_last_init; [|exact Ep].
    eapply full_but_last_prefix. exact Hfull.
Qed.

Lemma line_cap_respected_witness :
  1 <= 1 /\ (1 <= 1)%nat /\
  exists result w',
    prepare_invoices 1 clock0 two_batches 1 (Some 1) world0 = Done (result, w') /\
    Forall (fun i => line_count i <= 1) result /\
    (forall pre last, result = pre ++ [last] ->
       Forall (fun i => line_count i = 1) pre).
Proof.
  split; [lia|]. split; [lia|].
  apply (line_cap_respected 1 clock0 two_batches 1 (Some 1) world0); lia.
Defined.

(** ** C3 *)

(** C3. On [two_batches] the groups come out of [groupby] in key order, so
    the returned invoice lists batch 1 (valid from 2025) before batch 2
    (valid from 2020): the (validFrom, batchId) keys of the lines decrease. *)
Theorem fifo_order_lost :
  map (fun g => (grp_validFrom g, grp_batchId g)) (batch_groups_of two_batches)
    = [(Some 2025, 1); (Some 2020, 2)] /\
  lines_of (prepare_invoices 1 clock0 two_batches 2 None world0)
    = Done [[(1, 3); (2, 2)]] /\
  fifo_ordered (batch_groups_of two_batches) = false.
Proof. repeat split. Qed.

(** ** C4 *)

(** C4, as stated, fails: sorting a row without a date and a row with one
    puts the dated row first. *)
Lemma undated_not_first :
  exists i j ri rj,
    nth_error (sort_values undated_first_rows) i = Some ri /\
    nth_error (sort_values undated_first_rows) j = Some rj /\
    has_date ri = false /\ has_date rj = true /\ ~ (i < j)%nat.
Proof.
  exists 1%nat, 0%nat, (stock 1 1 1 1 9 None), (stock 1 2 1 1 9 (Some 5)).
  repeat split. lia.
Qed.

(** C4, amended. In the output of the FIFO sort every row without a
    parseable validity timestamp comes after every row with one. *)
Theorem undated_rows_sort_last df i j ri rj :
  nth_error (sort_values df) i = Some ri ->
  nth_error (sort_values df) j = Some rj ->
  has_date ri = false -> has_date rj = true ->
  (j < i)%nat.
Proof.
  intros Hi Hj Hri Hrj.
  destruct (sort_values_split df) as (l1 & l2 & E & D & U).
  rewrite E in Hi, Hj.
  assert (Hil : (length l1 <= i)%nat).
  { destruct (Nat.le_gt_cases (length l1) i) as [H|H]; [exact H|exfalso].
    rewrite nth_error_app1 in Hi by exact H.
    apply nth_error_In in Hi. rewrite Forall_forall in D.
    specialize (D ri Hi). unfold dated in D. unfold has_date in Hri.
    destruct (validFrom ri); [discriminate | congruence]. }
  assert (Hjl : (j < length l1)%nat).
  { destruct (Nat.le_gt_cases (length l1) j) as [H|H]; [exfalso|exact H].
    rewrite nth_error_app2 in Hj by exact H.
    apply nth_error_In in Hj. rewrite Forall_forall in U.
    specialize (U rj Hj). unfold undated in U. unfold has_date in Hrj.
    rewrite U in Hrj. discriminate. }
  lia.
Qed.

Lemma undated_rows_sort_last_witness :
  nth_error (sort_values undated_first_rows) 1 = Some (stock 1 1 1 1 9 None) /\
  nth_error (sort_values undated_first_rows) 0 = Some (stock 1 2 1 1 9 (Some 5)) /\
  (0 < 1)%nat.
Proof.
  split; [reflexivity|]. split; [reflexivity|].
  apply (undated_rows_sort_last undated_first_rows 1 0
           (stock 1 1 1 1 9 None) (stock 1 2 1 1 9 (Some 5)));
    reflexivity.
Defined.

(** ** C5 *)

(** C5, as stated, fails three times.  Truncation drops the invoice of
    batch 2; a row whose [patId] is null reaches no group; and an int64 sum
    that wraps leaves its group without a line.  In each run the lines of a
    batch id do not add up to its filtered rows. *)
Lemma quantity_lost :
  (exists result w',
     prepare_invoices 1 clock0 two_batches 1 (Some 1) world0 = Done (result, w') /\
     line_sum 2 (concat (map tbrDtoList result)) = 0 /\
     row_sum 2 (filter_rows two_batches) = 2) /\
  (exists result w',
     prepare_invoices 1 clock0 partly_keyed_rows 2 None world0 = Done (result, w') /\
     line_sum 7 (concat (map tbrDtoList result)) = 4 /\
     row_sum 7 (filter_rows partly_keyed_rows) = 7) /\
  (exists result w',
     prepare_invoices 1 clock0 wrapping_rows 2 None world0 = Done (result, w') /\
     line_sum 7 (concat (map tbrDtoList result)) = 0 /\
     row_sum 7 (filter_rows wrapping_rows) = 2 ^ 63).
Proof.
  split; [|split]; eexists; eexists; repeat split.
Qed.

(** C5, amended. With [items_per_invoice >= 1], no truncation and
    quantities that add up to less than 2^53, for every batch id the
    quantities of the returned lines of that batch add up to the quantities
    of the filtered rows of that batch whose four grouping cells (batch,
    product, warehouse, counterparty) are all present. *)
Theorem quantity_preserved fuel clock df items_per_invoice w :
  1 <= items_per_invoice -> (1 <= fuel)%nat -> small_quantities df ->
  exists full w',
    prepare_invoices fuel clock df items_per_invoice None w = Done (full, w') /\
    forall b, line_sum b (concat (map tbrDtoList full))
              = row_sum b (filter keyed (filter_rows df)).
Proof.
  intros Hn Hfuel Hsmall.
  destruct (prepare_invoices_small fuel clock df items_per_invoice w Hn Hfuel Hsmall)
    as (full & w' & Hrun & Hlines).
  exists full, w'. split; [apply (Hrun None)|].
  intros b. rewrite Hlines. apply exact_lines_sum.
Qed.

Lemma quantity_preserved_witness :
  1 <= 2 /\ (1 <= 1)%nat /\ small_quantities five_rows /\
  exists full w',
    prepare_invoices 1 clock0 five_rows 2 None world0 = Done (full, w') /\
    forall b, line_sum b (concat (map tbrDtoList full))
              = row_sum b (filter keyed (filter_rows five_rows)).
Proof.
  split; [lia|]. split; [lia|]. split; [reflexivity|].
  apply (quantity_preserved 1 clock0 five_rows 2 world0); [lia | lia | reflexivity].
Defined.

(** ** C6 *)

(** C6. With [max_invoices = 0] the guard [if max_invoices:] is false and
    nothing is truncated: on [two_batches] with one line per invoice both
    invoices are returned, the same list as without a limit, although the
    limit is 0. *)
Theorem limit_zero_returns_all :
  exists result w',
    prepare_invoices 1 clock0 two_batches 1 (Some 0) world0 = Done (result, w') /\
    prepare_invoices 1 clock0 two_batches 1 None world0 = Done (result, w') /\
    length result = 2%nat.
Proof. eexists. eexists. repeat split. Qed.

(** ** C7 *)

Lemma map_limit_invoices {A B} (f : A -> B) (max_invoices : option Z) (l : list A) :
  map f (limit_invoices max_invoices l) = limit_invoices max_invoices (map f l).
Proof.
  destruct max_invoices as [n|]; simpl; [|reflexivity].
  destruct (n =? 0); [reflexivity|]. unfold slice_to.
  rewrite length_map. destruct (0 <=? n); symmetry; apply firstn_map.
Qed.

Lemma close_invoice_same clock clock' row s s' :
  same_but_time s s' ->
  same_but_time (close_invoice clock row s) (close_invoice clock' row s').
Proof.
  intros (Hi & Hc & Hw).
  unfold close_invoice, create_invoice_payload, datetime_now,
    InvoiceCounter.get_next, same_but_time. simpl.
  rewrite !map_app, Hi, Hc, Hw. auto.
Qed.

Lemma place_body_same clock clock' items_per_invoice row q s s' :
  same_but_time s s' ->
  fst (place_body clock items_per_invoice row q s)
  = fst (place_body clock' items_per_invoice row q s') /\
  same_but_time (snd (place_body clock items_per_invoice row q s))
                (snd (place_body clock' items_per_invoice row q s')).
Proof.
  intros Hs. pose proof Hs as (Hi & Hc & Hw). unfold place_body. rewrite Hc.
  destruct (0 <? items_per_invoice - Z.of_nat (length (current_items s'))).
  - cbn [fst snd current_items]. split; [reflexivity|].
    destruct (items_per_invoice <=? _).
    + apply close_invoice_same. unfold same_but_time. simpl. auto.
    + unfold same_but_time. simpl. auto.
  - cbn [fst snd]. split; [reflexivity|].
    destruct (is_nonempty (current_items s')); [|exact Hs].
    apply close_invoice_same. exact Hs.
Qed.

Lemma place_loop_same clock clock' items_per_invoice row fuel :
  forall q s s',
    same_but_time s s' ->
    same_outcome same_but_time
      (place_loop fuel clock items_per_invoice row q s)
      (place_loop fuel clock' items_per_invoice row q s').
Proof.
  induction fuel as [|fuel IH]; intros q s s' Hs; simpl;
    destruct (0 <? q); simpl; try exact Hs; try exact I.
  destruct (place_body_same clock clock' items_per_invoice row q s s' Hs)
    as (Hq & Hs').
  destruct (place_body clock items_per_invoice row q s) as [q1 s1].
  destruct (place_body clock' items_per_invoice row q s') as [q2 s2].
  simpl in Hq, Hs'. subst q2. apply IH. exact Hs'.
Qed.

Lemma walk_groups_same clock clock' items_per_invoice fuel batch_groups :
  forall s s',
    same_but_time s s' ->
    same_outcome same_but_time
      (walk_groups fuel clock items_per_invoice batch_groups s)
      (walk_groups fuel clock' items_per_invoice batch_groups s').
Proof.
  induction batch_groups as [|row rest IH]; intros s s' Hs; simpl; [exact Hs|].
  pose proof (place_loop_same clock clock' items_per_invoice row fuel
                (grp_countPu row) s s' Hs) as H.
  destruct (place_loop fuel clock items_per_invoice row (grp_countPu row) s),
           (place_loop fuel clock' items_per_invoice row (grp_countPu row) s');
    simpl in H; try contradiction; try exact H.
  apply IH. exact H.
Qed.

(** Two calls of [prepare_invoices] that start with the same counter go the
    same way and build the same invoices, clock readings apart. *)
Lemma prepare_invoices_same fuel clock clock' df items_per_invoice max_invoices w w' :
  counter w = counter w' ->
  same_outcome (fun a b => map erase_time (fst a) = map erase_time (fst b))
    (prepare_invoices fuel clock df items_per_invoice max_invoices w)
    (prepare_invoices fuel clock' df items_per_invoice max_invoices w').
Proof.
  intros Hw. unfold prepare_invoices.
  destruct (negb (is_nonempty (filter_rows df))); [reflexivity|].
  assert (H0 : same_but_time {| invoices := []; current_items := []; world := w |}
                             {| invoices := []; current_items := []; world := w' |})
    by (unfold same_but_time; simpl; auto).
  pose proof (walk_groups_same clock clock' items_per_invoice fuel
                (groupby_agg (countPu_dtype df) (sort_values (filter_rows df)))
                _ _ H0) as Hs.
  destruct (walk_groups fuel clock _ _ _) as [s| |],
           (walk_groups fuel clock' _ _ _) as [s'| |];
    cbn [same_outcome] in Hs |- *; try contradiction; try exact Hs; try exact I.
  pose proof Hs as (Hi & Hc & _). rewrite Hc.
  destruct (is_nonempty (current_items s')).
  - destruct (rev _) as [|last_row rest]; [reflexivity|].
    destruct (close_invoice_same clock clock' last_row s s' Hs) as (Hi' & _).
    cbn [same_outcome fst]. rewrite !map_limit_invoices. f_equal. exact Hi'.
  - cbn [same_outcome fst]. rewrite !map_limit_invoices, Hi. reflexivity.
Qed.

(** C7, as stated, fails when the two runs are two calls: the live run
    that follows a dry run reads the clock later, and its invoices carry
    other [docDate]s. *)
Lemma second_run_differs :
  exists dry live,
    run_retail_write_off_service 1 clock0 always_created five_rows 2
      (Some 2) false world0 = Done dry /\
    run_retail_write_off_service 1 clock0 always_created five_rows 2
      (Some 2) true (final_world dry) = Done live /\
    map docDate (ret_invoices dry) = [20260101] /\
    map docDate (ret_invoices live) = [20260103] /\
    ret_invoices dry <> ret_invoices live.
Proof.
  eexists. eexists. split; [reflexivity|]. split; [reflexivity|].
  split; [reflexivity|]. split; [reflexivity|].
  simpl. intros H. inversion H.
Qed.

(** C7, amended. For the same rows and configuration, whatever the process
    state and the clock of either run, the dry run ([execute = false]) and
    the live run ([execute = true]) both return, and their invoice lists
    agree in everything but the clock readings ([docDate] and the date in
    [docNum]): same lines, same headers, same item counts, same document
    sequence numbers.  The dry run returns no submission result and issues
    no request. *)
Theorem dry_run_matches_live fuel clock_dry clock_live net df items_per_invoice
    max_invoices w_dry w_live :
  1 <= items_per_invoice -> (1 <= fuel)%nat ->
  exists dry live,
    run_retail_write_off_service fuel clock_dry net df items_per_invoice
      max_invoices false w_dry = Done dry /\
    run_retail_write_off_service fuel clock_live net df items_per_invoice
      max_invoices true w_live = Done live /\
    map erase_time (ret_invoices dry) = map erase_time (ret_invoices live) /\
    ret_results dry = [] /\
    requests_issued dry = [].
Proof.
  intros Hn Hfuel. unfold run_retail_write_off_service.
  pose proof (prepare_invoices_same fuel clock_dry clock_live df items_per_invoice
                max_invoices (InvoiceCounter.reset w_dry)
                (InvoiceCounter.reset w_live) eq_refl) as Hsame.
  destruct (prepare_invoices_ok fuel clock_dry df items_per_invoice
              (InvoiceCounter.reset w_dry) Hn Hfuel) as (full & w1 & Hrun & _).
  destruct (prepare_invoices_ok fuel clock_live df items_per_invoice
              (InvoiceCounter.reset w_live) Hn Hfuel) as (full' & w1' & Hrun' & _).
  rewrite (Hrun max_invoices), (Hrun' max_invoices) in Hsame. simpl in Hsame.
  rewrite (Hrun max_invoices), (Hrun' max_invoices).
  destruct (limit_invoices max_invoices full) as [|i invs],
           (limit_invoices max_invoices full') as [|i' invs'];
    try discriminate Hsame; simpl;
    eexists; eexists; repeat split; exact Hsame.
Qed.

Lemma dry_run_matches_live_witness :
  1 <= 2 /\ (1 <= 1)%nat /\
  exists dry live,
    run_retail_write_off_service 1 clock0 always_created five_rows 2
      (Some 2) false world0 = Done dry /\
    run_retail_write_off_service 1 (fun k => 20270101 + Z.of_nat k) always_created
      five_rows 2 (Some 2) true {| counter := 7; ticks := 3 |} = Done live /\
    map erase_time (ret_invoices dry) = map erase_time (ret_invoices live) /\
    ret_results dry = [] /\
    requests_issued dry = [].
Proof.
  split; [lia|]. split; [lia|].
  apply (dry_run_matches_live 1 clock0 (fun k => 20270101 + Z.of_nat k)
           always_created five_rows 2 (Some 2) world0
           {| counter := 7; ticks := 3 |}); lia.
Defined.

Example live_run_sends_two_requests :
  match run_retail_write_off_service 1 clock0 always_created five_rows 2
          (Some 2) true world0 with
  | Done live => (length (ret_results live), length (requests_issued live))
  | _ => (0, 0)%nat
  end = (1, 2)%nat.
Proof. reflexivity. Qed.

(** ** C9 *)

(** C9, as stated, fails: with [items_per_invoice = 0] and a row that
    survives the filter but has a null grouping cell, no group is formed
    and the function returns.  It also returns when the only group has an
    int64 sum that wrapped to a negative number. *)
Lemma returns_without_groups :
  (returns clock0 keyless_rows 0 None world0 /\
   ~ (1 <= 0 \/ filter_rows keyless_rows = [])) /\
  (returns clock0 wrapping_rows 0 None world0 /\
   ~ (1 <= 0 \/ filter keyed (filter_rows wrapping_rows) = [])).
Proof.
  split; split.
  - exists 0%nat, ([], world0). reflexivity.
  - intros [H | H]; [lia | discriminate H].
  - exists 0%nat, ([], world0). reflexivity.
  - intros [H | H]; [lia | discriminate H].
Qed.

(** C9, amended. For quantities that add up to less than 2^53,
    [prepare_invoices] returns if and only if [items_per_invoice >= 1] or no
    filtered row has all four grouping cells present (no group is formed);
    when [items_per_invoice <= 0] and a group exists, it runs forever,
    whatever the fuel. *)
Theorem termination_condition clock df items_per_invoice max_invoices w :
  small_quantities df ->
  (returns clock df items_per_invoice max_invoices w <->
   (1 <= items_per_invoice \/ filter keyed (filter_rows df) = [])) /\
  (diverges clock df items_per_invoice max_invoices w <->
   (items_per_invoice <= 0 /\ filter keyed (filter_rows df) <> [])).
Proof.
  intros Hsmall.
  assert (Hret : 1 <= items_per_invoice \/ filter keyed (filter_rows df) = [] ->
                 returns clock df items_per_invoice max_invoices w).
  { intros [Hn | Hk].
    - destruct (prepare_invoices_ok 1 clock df items_per_invoice w Hn (le_n 1))
        as (full & w' & Hrun & _).
      exists 1%nat. eexists. apply Hrun.
    - exists 0%nat. eexists. apply prepare_invoices_no_groups.
      apply batch_groups_nil. exact Hk. }
  assert (Hdiv : items_per_invoice <= 0 /\ filter keyed (filter_rows df) <> [] ->
                 diverges clock df items_per_invoice max_invoices w).
  { intros [Hn Hk] fuel. apply prepare_invoices_stalls; [exact Hn | exact Hsmall |].
    intros E. apply Hk. apply batch_groups_nil. exact E. }
  assert (Hdec : {filter keyed (filter_rows df) = []} +
                 {filter keyed (filter_rows df) <> []}).
  { destruct (filter keyed (filter_rows df)); [left; reflexivity | right; discriminate]. }
  split; split.
  - intros (fuel & result & E).
    destruct (Z_le_gt_dec 1 items_per_invoice) as [Hn|Hn]; [left; exact Hn|].
    destruct Hdec as [Hk|Hk]; [right; exact Hk|exfalso].
    assert (Hle : items_per_invoice <= 0) by lia.
    rewrite (Hdiv (conj Hle Hk) fuel) in E. discriminate.
  - exact Hret.
  - intros Hd.
    destruct (Z_le_gt_dec 1 items_per_invoice) as [Hn|Hn].
    + exfalso. destruct (Hret (or_introl Hn)) as (fuel & result & E).
      rewrite (Hd fuel) in E. discriminate.
    + split; [lia|]. intros Hk.
      destruct (Hret (or_intror Hk)) as (fuel & result & E).
      rewrite (Hd fuel) in E. discriminate.
  - exact Hdiv.
Qed.

Lemma termination_condition_witness :
  small_quantities two_batches /\
  returns clock0 two_batches 1 None world0 /\
  diverges clock0 two_batches 0 None world0.
Proof.
  split; [reflexivity|]. split.
  - apply (proj2 (proj1 (termination_condition clock0 two_batches 1 None world0
                            eq_refl))).
    left. lia.
  - apply (proj2 (proj2 (termination_condition clock0 two_batches 0 None world0
                            eq_refl))).
    split; [lia | discriminate].
Defined.

(** ** The delivery notifier *)

Lemma attempt_id_notify clock backend svc invoice_id dest :
  attempt_id (notify_delivered clock backend svc invoice_id dest) = invoice_id.
Proof.
  unfold notify_delivered. destruct (py_int dest); reflexivity.
Qed.

(** What the loop leaves behind after a list of rows. *)
Lemma process_rows_summary clock backend rows :
  forall svc,
    let svc' := fold_left (process_row clock backend) rows svc in
    map attempt_id (attempts svc') = map attempt_id (attempts svc) ++ map id rows /\
    skipped_count svc' = skipped_count svc /\
    (success_count svc' + error_count svc'
     = success_count svc + error_count svc + length rows)%nat.
Proof.
  induction rows as [|row rows IH]; intros svc; simpl.
  - rewrite app_nil_r. repeat split. lia.
  - destruct (IH (process_row clock backend svc row)) as (Ha & Hs & Hc).
    rewrite Ha, Hs, Hc. unfold process_row. cbn [attempts skipped_count
      success_count error_count].
    rewrite map_app. simpl. rewrite attempt_id_notify, <- app_assoc.
    repeat split.
    destruct (match notify_delivered clock backend svc (id row)
                      (effective_warehouse row) with
              | Posted _ (PostStatus status) => status =? 200
              | _ => false
              end); lia.
Qed.

Lemma process_rows_attempts clock backend rows :
  forall svc, exists rest,
    attempts (fold_left (process_row clock backend) rows svc) = attempts svc ++ rest.
Proof.
  induction rows as [|row rows IH]; intros svc; simpl.
  - exists []. rewrite app_nil_r. reflexivity.
  - destruct (IH (process_row clock backend svc row)) as (rest & E).
    rewrite E. unfold process_row. cbn [attempts].
    eexists. rewrite <- app_assoc. reflexivity.
Qed.

(** The attempt made for the [i]-th row. *)
Lemma process_rows_nth clock backend rows :
  forall svc i row,
    nth_error rows i = Some row ->
    exists svc_i,
      nth_error (attempts (fold_left (process_row clock backend) rows svc))
                (length (attempts svc) + i)
      = Some (notify_delivered clock backend svc_i (id row) (effective_warehouse row)).
Proof.
  induction rows as [|r rows IH]; intros svc i row Hi.
  - destruct i; discriminate.
  - destruct i as [|i]; simpl in Hi |- *.
    + inversion Hi; subst r. exists svc.
      destruct (process_rows_attempts clock backend rows
                  (process_row clock backend svc row)) as (rest & E).
      rewrite E. unfold process_row at 1. cbn [attempts].
      rewrite <- app_assoc, Nat.add_0_r.
      rewrite nth_error_app2 by lia. rewrite Nat.sub_diag. reflexivity.
    + destruct (IH (process_row clock backend svc r) i row Hi) as (svc_i & E).
      exists svc_i. rewrite <- E. f_equal.
      unfold process_row. cbn [attempts]. rewrite length_app. simpl. lia.
Qed.

(** ** C8 *)

(** C8, as stated, fails for an unparseable id: the text is passed on as it
    is, [int] raises before anything is sent, and the record is counted as
    an error. *)
Lemma unparseable_not_replaced :
  effective_warehouse unparseable_record = CStr "abc" /\
  run clock0 (always_ok [unparseable_record]) init
  = Done {| success_count := 0; error_count := 1; skipped_count := 0;
            attempts := [NotSent (CInt 5) (CStr "abc")];
            clock_reads := 1 |} /\
  posted_requests [NotSent (CInt 5) (CStr "abc")] = [].
Proof. repeat split. Qed.

(** C8, amended. For every fetched record whose destination warehouse id
    is null, the number 0 or the text "0", the notifier posts one
    mark-delivered request for that record carrying the fallback warehouse
    id 1085300, and the skipped count stays zero. *)
Theorem fallback_warehouse_used clock backend rows i row :
  fetch_result backend = inr rows ->
  nth_error rows i = Some row ->
  (isna (destinationWarehouseId row) || in_zero (destinationWarehouseId row))%bool
    = true ->
  exists svc req out,
    run clock backend init = Done svc /\
    nth_error (attempts svc) i = Some (Posted req out) /\
    oid req = id row /\
    req_destinationWarehouseId req = 1085300 /\
    skipped_count svc = 0%nat.
Proof.
  intros Hfetch Hi Hdest. unfold run, fetch_invoices. rewrite Hfetch.
  destruct (process_rows_nth clock backend rows init i row Hi) as (svc_i & E).
  simpl in E.
  assert (Hw : effective_warehouse row = CInt 1085300).
  { unfold effective_warehouse. rewrite <- orb_assoc, Hdest, orb_true_r.
    reflexivity. }
  rewrite Hw in E. unfold notify_delivered in E. simpl in E.
  eexists. eexists. eexists. split; [reflexivity|]. split; [exact E|].
  split; [reflexivity|]. split; [reflexivity|].
  apply (process_rows_summary clock backend rows init).
Qed.

Lemma fallback_warehouse_used_witness :
  exists svc req out,
    run clock0 (always_ok [unparseable_record; missing_warehouse_record]) init
      = Done svc /\
    nth_error (attempts svc) 1 = Some (Posted req out) /\
    oid req = CInt 6 /\
    req_destinationWarehouseId req = 1085300 /\
    skipped_count svc = 0%nat.
Proof.
  apply (fallback_warehouse_used clock0
           (always_ok [unparseable_record; missing_warehouse_record])
           [unparseable_record; missing_warehouse_record] 1
           missing_warehouse_record); reflexivity.
Defined.

(** ** C10 *)

(** C10. When the fetch succeeds, [run] calls [notify_delivered] exactly
    once per fetched row, in order and for that row's invoice id (null ids
    included); every row is counted as a success or an error, and the
    skipped count of the summary is zero. *)
Theorem run_never_skips clock backend rows :
  fetch_result backend = inr rows ->
  exists svc,
    run clock backend init = Done svc /\
    map attempt_id (attempts svc) = map id rows /\
    (success_count svc + error_count svc = length rows)%nat /\
    skipped_count svc = 0%nat.
Proof.
  intros Hfetch. unfold run, fetch_invoices. rewrite Hfetch.
  eexists. split; [reflexivity|].
  destruct (process_rows_summary clock backend rows init) as (Ha & Hs & Hc).
  simpl in Ha, Hs, Hc. auto.
Qed.

Lemma run_never_skips_witness :
  exists svc,
    run clock0 (always_ok [unparseable_record; missing_id_record]) init = Done svc /\
    map attempt_id (attempts svc) = [CInt 5; CNull] /\
    (success_count svc + error_count svc = 2)%nat /\
    skipped_count svc = 0%nat.
Proof.
  apply (run_never_skips clock0 (always_ok [unparseable_record; missing_id_record])
           [unparseable_record; missing_id_record]).
  reflexivity.
Defined.

(** * Further properties of the batcher *)

(** ** The invoices as chunks of the group list *)

Lemma invoices_of_chunks_app clock c0 t0 cs c :
  forall k,
    invoices_of_chunks clock c0 t0 k (cs ++ [c])
    = invoices_of_chunks clock c0 t0 k cs
      ++ [invoice_of_chunk clock c0 t0 (k + length cs) c].
Proof.
  induction cs as [|x cs IH]; intros k; simpl.
  - rewrite Nat.add_0_r. reflexivity.
  - rewrite IH. replace (S k + length cs)%nat with (k + S (length cs))%nat by lia.
    reflexivity.
Qed.

Lemma invoices_of_chunks_length clock c0 t0 cs :
  forall k, length (invoices_of_chunks clock c0 t0 k cs) = length cs.
Proof. induction cs as [|c cs IH]; intros k; simpl; [|rewrite IH]; reflexivity. Qed.

(** Closing the open invoice with header [row] adds one chunk. *)
Lemma close_invoice_chunk clock c0 t0 cs cur row s :
  current_items s = map line_of_group cur ->
  invoices s = invoices_of_chunks clock c0 t0 0 cs ->
  world s = {| counter := c0 + length cs; ticks := t0 + 2 * length cs |} ->
  invoices (close_invoice clock row s)
  = invoices_of_chunks clock c0 t0 0 (cs ++ [(cur, row)]) /\
  current_items (close_invoice clock row s) = [] /\
  world (close_invoice clock row s)
  = {| counter := c0 + length (cs ++ [(cur, row)]);
       ticks := t0 + 2 * length (cs ++ [(cur, row)]) |}.
Proof.
  intros Hc Hi Hw.
  unfold close_invoice, create_invoice_payload, datetime_now,
    InvoiceCounter.get_next. rewrite Hw, Hc, Hi. cbn [counter ticks].
  cbn [invoices current_items world].
  split; [|split; [reflexivity|]].
  - rewrite invoices_of_chunks_app. f_equal. unfold invoice_of_chunk. simpl.
    rewrite length_map. reflexivity.
  - rewrite length_app. simpl. f_equal; lia.
Qed.

Lemma place_loop_shape clock c0 t0 done items_per_invoice row s fuel :
  walk_inv items_per_invoice s -> shape clock c0 t0 done s ->
  (1 <= fuel)%nat ->
  exists s', place_loop fuel clock items_per_invoice row (grp_countPu row) s = Done s' /\
             shape clock c0 t0 (done ++ [row]) s' /\
             walk_inv items_per_invoice s'.
Proof.
  intros Hinv (cs & cur & Hd & Hc & Hi & Hh & Hw) Hfuel.
  destruct (place_loop_ok clock items_per_invoice row s fuel Hinv Hfuel)
    as (s' & E & _ & Hinv').
  exists s'. split; [exact E|]. split; [|exact Hinv'].
  destruct Hinv as [Hroom _].
  destruct fuel as [|fuel]; [lia|]. simpl in E.
  assert (Hf : filter placed (done ++ [row])
               = filter placed done ++ (if 0 <? grp_countPu row then [row] else []))
    by (rewrite filter_app; reflexivity).
  unfold shape. rewrite Hf. clear Hf.
  destruct (0 <? grp_countPu row) eqn:Hq.
  2:{ inversion E; subst s'. exists cs, cur. rewrite app_nil_r. auto. }
  unfold place_body in E.
  assert (Hsp : (0 <? items_per_invoice - Z.of_nat (length (current_items s))) = true)
    by (apply Z.ltb_lt; lia).
  rewrite Hsp in E. cbn [current_items] in E. fold (line_of_group row) in E.
  assert (Hdone : forall s2, place_loop fuel clock items_per_invoice row 0 s2 = Done s2)
    by (intros s2; destruct fuel; reflexivity).
  destruct (items_per_invoice <=? _) in E; rewrite Hdone in E;
    inversion E; subst s'; clear E.
  - destruct (close_invoice_chunk clock c0 t0 cs (cur ++ [row]) row
                {| invoices := invoices s;
                   current_items := current_items s ++ [line_of_group row];
                   world := world s |}) as (Ei & Ec & Ew); simpl.
    + rewrite Hc, map_app. reflexivity.
    + exact Hi.
    + exact Hw.
    + exists (cs ++ [(cur ++ [row], row)]), []. split; [|split; [|split; [|split]]].
      * rewrite map_app, concat_app. simpl. rewrite !app_nil_r, Hd, <- app_assoc.
        reflexivity.
      * exact Ec.
      * exact Ei.
      * apply Forall_app. split; [exact Hh|]. constructor; [|constructor].
        exists cur. reflexivity.
      * exact Ew.
  - exists cs, (cur ++ [row]). simpl. split; [|split; [|split; [|split]]].
    + rewrite Hd, <- app_assoc. reflexivity.
    + rewrite Hc, map_app. reflexivity.
    + exact Hi.
    + exact Hh.
    + exact Hw.
Qed.

Lemma walk_groups_shape clock c0 t0 items_per_invoice fuel batch_groups :
  (1 <= fuel)%nat ->
  forall done s,
    walk_inv items_per_invoice s -> shape clock c0 t0 done s ->
    exists s', walk_groups fuel clock items_per_invoice batch_groups s = Done s' /\
               shape clock c0 t0 (done ++ batch_groups) s' /\
               walk_inv items_per_invoice s'.
Proof.
  intros Hfuel. induction batch_groups as [|row rest IH];
    intros done s Hinv Hs; simpl.
  - exists s. rewrite app_nil_r. auto.
  - destruct (place_loop_shape clock c0 t0 done items_per_invoice row s fuel
                Hinv Hs Hfuel) as (s1 & E1 & S1 & I1).
    rewrite E1. destruct (IH (done ++ [row]) s1 I1 S1) as (s2 & E2 & S2 & I2).
    exists s2. rewrite <- app_assoc in S2. auto.
Qed.

Lemma headed_nonempty (cs : list Chunk) :
  Forall headed_by_last cs -> Forall (fun c => fst c <> []) cs.
Proof.
  apply Forall_impl. intros c (init & E). rewrite E. destruct init; discriminate.
Qed.

(** [prepare_invoices] with [items_per_invoice >= 1], as a function of the
    group list: the placed groups are cut into consecutive chunks, each
    chunk becomes one invoice, and the invoices are numbered in order.
    When every group is placed, each invoice is headed by its last group. *)
Lemma prepare_invoices_chunks fuel clock df items_per_invoice w :
  1 <= items_per_invoice -> (1 <= fuel)%nat ->
  exists cs,
    concat (map fst cs) = filter placed (batch_groups_of df) /\
    Forall (fun c => fst c <> []) cs /\
    (Forall (fun g => placed g = true) (batch_groups_of df) ->
     Forall headed_by_last cs) /\
    forall max_invoices,
      prepare_invoices fuel clock df items_per_invoice max_invoices w
      = Done (limit_invoices max_invoices
                (invoices_of_chunks clock (counter w) (ticks w) 0 cs),
              {| counter := counter w + length cs;
                 ticks := ticks w + 2 * length cs |}).
Proof.
  intros Hn Hfuel. unfold prepare_invoices. fold (batch_groups_of df).
  destruct (filter_rows df) as [|r0 rows] eqn:Ef.
  - exists []. split; [|split; [|split]].
    + unfold batch_groups_of. rewrite Ef. reflexivity.
    + constructor.
    + constructor.
    + intros m. simpl. rewrite limit_invoices_nil, !Nat.add_0_r.
      destruct w; reflexivity.
  - cbn [is_nonempty negb].
    set (s0 := {| invoices := []; current_items := []; world := w |}).
    assert (I0 : walk_inv items_per_invoice s0) by (split; simpl; [lia | constructor]).
    assert (S0 : shape clock (counter w) (ticks w) [] s0).
    { exists [], []. simpl. rewrite !Nat.add_0_r. destruct w.
      repeat split; constructor. }
    destruct (walk_groups_shape clock (counter w) (ticks w) items_per_invoice fuel
                (batch_groups_of df) Hfuel [] s0 I0 S0)
      as (s & E & (cs & cur & Hd & Hc & Hi & Hh & Hw) & _).
    simpl in Hd. rewrite E.
    destruct cur as [|g cur'].
    + rewrite Hc. simpl. exists cs. rewrite app_nil_r in Hd.
      split; [symmetry; exact Hd|]. split; [apply headed_nonempty; exact Hh|].
      split; [intros _; exact Hh|].
      intros m. rewrite Hi, Hw. reflexivity.
    + rewrite Hc. cbn [map is_nonempty].
      destruct (rev (batch_groups_of df)) as [|last_row rest] eqn:Er.
      * exfalso. apply (f_equal (@rev _)) in Er. rewrite rev_involutive in Er.
        simpl in Er. rewrite Er in Hd. simpl in Hd.
        destruct (concat (map fst cs)); discriminate.
      * destruct (close_invoice_chunk clock (counter w) (ticks w) cs (g :: cur')
                    last_row s Hc Hi Hw) as (Ei & _ & Ew).
        exists (cs ++ [(g :: cur', last_row)]).
        split; [|split; [|split]].
        -- rewrite map_app, concat_app. simpl. rewrite app_nil_r.
           symmetry. exact Hd.
        -- apply Forall_app. split; [apply headed_nonempty; exact Hh|].
           constructor; [discriminate | constructor].
        -- intros Hall. apply Forall_app. split; [exact Hh|].
           constructor; [|constructor].
           rewrite filter_all in Hd by exact Hall.
           apply (f_equal (@rev _)) in Er. rewrite rev_involutive in Er.
           simpl in Er. rewrite Er in Hd.
           destruct (@exists_last _ (g :: cur')) as (cur0 & l & El); [discriminate|].
           rewrite El in Hd. rewrite app_assoc in Hd.
           apply app_inj_tail in Hd. destruct Hd as [_ Hl].
           exists cur0. simpl. rewrite El, Hl. reflexivity.
        -- intros m. rewrite Ei, Ew. reflexivity.
Qed.

Lemma numbers_of_chunks clock c0 t0 cs :
  forall k,
    map (fun i => snd (docNum i)) (invoices_of_chunks clock c0 t0 k cs)
    = seq (c0 + k) (length cs).
Proof.
  induction cs as [|c cs IH]; intros k; simpl; [reflexivity|].
  rewrite IH. do 2 f_equal. lia.
Qed.

Lemma app_eq_length {A} (l1 r1 l2 r2 : list A) :
  length l1 = length r1 -> l1 ++ l2 = r1 ++ r2 -> l1 = r1.
Proof.
  revert r1. induction l1 as [|a l1 IH]; intros [|b r1] Hlen E;
    simpl in *; try discriminate; [reflexivity|].
  inversion E. f_equal. apply IH; [lia | assumption].
Qed.

Lemma seq_prefix {A} (f : A -> nat) (c : nat) (kept dropped : list A) :
  map f (kept ++ dropped) = seq c (length (kept ++ dropped)) ->
  map f kept = seq c (length kept).
Proof.
  rewrite map_app, length_app, seq_app. intros E.
  apply (app_eq_length _ _ _ _) in E; [exact E|].
  rewrite length_map, length_seq. reflexivity.
Qed.

(** ** X1: document numbers *)

(** X1. With [items_per_invoice >= 1] the returned invoices carry the
    consecutive counters [counter w], [counter w + 1], ... in list order,
    and the counter left behind has advanced by the number of invoices built
    before truncation: truncated invoices keep their numbers. *)
Theorem document_numbers_consecutive fuel clock df items_per_invoice max_invoices w :
  1 <= items_per_invoice -> (1 <= fuel)%nat ->
  exists full kept w',
    prepare_invoices fuel clock df items_per_invoice None w = Done (full, w') /\
    prepare_invoices fuel clock df items_per_invoice max_invoices w = Done (kept, w') /\
    map (fun i => snd (docNum i)) kept = seq (counter w) (length kept) /\
    counter w' = (counter w + length full)%nat.
Proof.
  intros Hn Hfuel.
  destruct (prepare_invoices_chunks fuel clock df items_per_invoice w Hn Hfuel)
    as (cs & _ & _ & _ & Hrun).
  eexists. eexists. eexists.
  split; [apply (Hrun None)|]. split; [apply (Hrun max_invoices)|].
  simpl. rewrite invoices_of_chunks_length. split; [|reflexivity].
  destruct (limit_invoices_prefix max_invoices
              (invoices_of_chunks clock (counter w) (ticks w) 0 cs)) as (dropped & E).
  apply (seq_prefix _ _ _ dropped). rewrite <- E.
  rewrite numbers_of_chunks, invoices_of_chunks_length, Nat.add_0_r. reflexivity.
Qed.

Lemma document_numbers_consecutive_witness :
  1 <= 1 /\ (1 <= 1)%nat /\
  exists full kept w',
    prepare_invoices 1 clock0 two_batches 1 None world0 = Done (full, w') /\
    prepare_invoices 1 clock0 two_batches 1 (Some 1) world0 = Done (kept, w') /\
    map (fun i => snd (docNum i)) kept = seq (counter world0) (length kept) /\
    counter w' = (counter world0 + length full)%nat.
Proof.
  split; [lia|]. split; [lia|].
  apply (document_numbers_consecutive 1 clock0 two_batches 1 (Some 1) world0); lia.
Defined.

(** ** X2: invoice headers *)

Lemma invoices_of_chunks_headers clock c0 t0 cs :
  Forall headed_by_last cs ->
  forall k,
    Forall2 (fun c i =>
               tbrDtoList i = map line_of_group (fst c) /\
               (exists init, fst c = init ++ [snd c]) /\
               receiverContractorId i = grp_contractorId (snd c) /\
               sourceWarehouseId i = grp_warehouseId (snd c))
            cs (invoices_of_chunks clock c0 t0 k cs).
Proof.
  induction 1 as [|c cs Hc _ IH]; intros k; simpl; constructor; auto.
Qed.

(** X2. With [items_per_invoice >= 1] and quantities that add up to less
    than 2^53, the untruncated invoice list cuts the group list into
    consecutive chunks, in order; each invoice carries the lines of its
    chunk and takes [receiverContractorId] and [sourceWarehouseId] from the
    last group of that chunk. *)
Theorem header_from_last_group fuel clock df items_per_invoice w :
  1 <= items_per_invoice -> (1 <= fuel)%nat -> small_quantities df ->
  exists full w' cs,
    prepare_invoices fuel clock df items_per_invoice None w = Done (full, w') /\
    concat (map fst cs) = batch_groups_of df /\
    Forall2 (fun c i =>
               tbrDtoList i = map line_of_group (fst c) /\
               (exists init, fst c = init ++ [snd c]) /\
               receiverContractorId i = grp_contractorId (snd c) /\
               sourceWarehouseId i = grp_warehouseId (snd c))
            cs full.
Proof.
  intros Hn Hfuel Hsmall.
  destruct (prepare_invoices_chunks fuel clock df items_per_invoice w Hn Hfuel)
    as (cs & Hcs & _ & Hhead & Hrun).
  destruct (batch_groups_small df Hsmall) as (Hall & _).
  rewrite filter_all in Hcs by exact Hall.
  eexists. eexists. exists cs.
  split; [apply (Hrun None)|]. split; [exact Hcs|].
  apply invoices_of_chunks_headers, Hhead, Hall.
Qed.

Lemma header_from_last_group_witness :
  1 <= 2 /\ (1 <= 1)%nat /\ small_quantities two_batches /\
  exists full w' cs,
    prepare_invoices 1 clock0 two_batches 2 None world0 = Done (full, w') /\
    concat (map fst cs) = batch_groups_of two_batches /\
    Forall2 (fun c i =>
               tbrDtoList i = map line_of_group (fst c) /\
               (exists init, fst c = init ++ [snd c]) /\
               receiverContractorId i = grp_contractorId (snd c) /\
               sourceWarehouseId i = grp_warehouseId (snd c))
            cs full.
Proof.
  split; [lia|]. split; [lia|]. split; [reflexivity|].
  apply (header_from_last_group 1 clock0 two_batches 2 world0);
    [lia | lia | reflexivity].
Defined.

(** ** X3: no empty invoice *)

Lemma invoices_of_chunks_lines clock c0 t0 cs :
  Forall (fun c => fst c <> []) cs ->
  forall k,
    Forall (fun i => tbrDtoList i <> [] /\ docNote i = length (tbrDtoList i))
           (invoices_of_chunks clock c0 t0 k cs).
Proof.
  induction 1 as [|c cs Hc _ IH]; intros k; simpl; constructor; auto.
  simpl. split.
  - destruct (fst c); [congruence | discriminate].
  - rewrite length_map. reflexivity.
Qed.

(** X3. With [items_per_invoice >= 1], whatever [max_invoices] is, every
    returned invoice has at least one line, and the item count written into
    its [docNote] and [name] is the number of its lines. *)
Theorem invoices_never_empty fuel clock df items_per_invoice max_invoices w :
  1 <= items_per_invoice -> (1 <= fuel)%nat ->
  exists result w',
    prepare_invoices fuel clock df items_per_invoice max_invoices w
      = Done (result, w') /\
    Forall (fun i => tbrDtoList i <> [] /\ docNote i = length (tbrDtoList i)) result.
Proof.
  intros Hn Hfuel.
  destruct (prepare_invoices_chunks fuel clock df items_per_invoice w Hn Hfuel)
    as (cs & _ & Hne & _ & Hrun).
  eexists. eexists. split; [apply (Hrun max_invoices)|].
  destruct (limit_invoices_prefix max_invoices
              (invoices_of_chunks clock (counter w) (ticks w) 0 cs)) as (dropped & E).
  pose proof (invoices_of_chunks_lines clock (counter w) (ticks w) cs Hne 0%nat) as H.
  rewrite E in H. apply Forall_app in H. apply H.
Qed.

Lemma invoices_never_empty_witness :
  1 <= 2 /\ (1 <= 1)%nat /\
  exists result w',
    prepare_invoices 1 clock0 five_rows 2 (Some 2) world0 = Done (result, w') /\
    Forall (fun i => tbrDtoList i <> [] /\ docNote i = length (tbrDtoList i)) result.
Proof.
  split; [lia|]. split; [lia|].
  apply (invoices_never_empty 1 clock0 five_rows 2 (Some 2) world0); lia.
Defined.

(** ** X4: the number of invoices *)

Lemma full_invoices_lines n (l : list InvoiceSpec) :
  Forall (fun i => line_count i = n) l ->
  Z.of_nat (length (concat (map tbrDtoList l))) = n * Z.of_nat (length l).
Proof.
  induction 1 as [|i l Hi _ IH]; simpl; [lia|].
  rewrite length_app. unfold line_count in Hi. lia.
Qed.

Lemma invoice_count_formula n (l : list InvoiceSpec) :
  1 <= n ->
  Forall (fun i => line_count i <= n) l ->
  Forall (fun i => tbrDtoList i <> []) l ->
  full_but_last n l ->
  Z.of_nat (length l)
  = (Z.of_nat (length (concat (map tbrDtoList l))) + n - 1) / n.
Proof.
  intros Hn Hle Hne Hfull.
  destruct l as [|i0 l0]; [simpl; symmetry; apply Z.div_small; lia|].
  destruct (@exists_last _ (i0 :: l0)) as (pre & x & E); [discriminate|].
  rewrite E in *. clear E i0 l0.
  pose proof (full_but_last_init n _ pre x Hfull eq_refl) as Hpre.
  apply Forall_app in Hle. destruct Hle as [_ Hx]. inversion Hx; subst.
  apply Forall_app in Hne. destruct Hne as [_ Hx']. inversion Hx'; subst.
  rewrite map_app, concat_app, !length_app. simpl. rewrite app_nil_r.
  pose proof (full_invoices_lines n pre Hpre) as Hlen.
  unfold line_count in *.
  assert (1 <= Z.of_nat (length (tbrDtoList x))).
  { destruct (tbrDtoList x); [congruence | simpl; lia]. }
  apply Z.div_unique with (r := Z.of_nat (length (tbrDtoList x)) - 1); lia.
Qed.

(** X4. With [items_per_invoice >= 1], no truncation and quantities that
    add up to less than 2^53, the number of invoices is the number of
    groups divided by [items_per_invoice], rounded up. *)
Theorem invoice_count fuel clock df items_per_invoice w :
  1 <= items_per_invoice -> (1 <= fuel)%nat -> small_quantities df ->
  exists full w',
    prepare_invoices fuel clock df items_per_invoice None w = Done (full, w') /\
    Z.of_nat (length full)
    = (Z.of_nat (length (batch_groups_of df)) + items_per_invoice - 1)
      / items_per_invoice.
Proof.
  intros Hn Hfuel Hsmall.
  destruct (prepare_invoices_ok fuel clock df items_per_invoice w Hn Hfuel)
    as (full & w' & Hrun & Hlines & Hle & Hfull).
  destruct (prepare_invoices_chunks fuel clock df items_per_invoice w Hn Hfuel)
    as (cs & _ & Hcs & _ & Hrun').
  pose proof (invoices_of_chunks_lines clock (counter w) (ticks w) cs Hcs 0%nat) as Hne.
  specialize (Hrun' None). rewrite (Hrun None) in Hrun'. simpl in Hrun'.
  inversion Hrun' as [[Efull Ew]]. rewrite <- Efull in Hne. clear Hrun' Efull Ew.
  destruct (batch_groups_small df Hsmall) as (Hall & _).
  rewrite filter_all in Hlines by exact Hall.
  exists full, w'. split; [apply (Hrun None)|].
  rewrite (invoice_count_formula items_per_invoice full Hn Hle); [| |exact Hfull].
  - rewrite Hlines, length_map. reflexivity.
  - eapply Forall_impl; [|exact Hne]. simpl. tauto.
Qed.

Lemma invoice_count_witness :
  1 <= 2 /\ (1 <= 1)%nat /\ small_quantities five_rows /\
  exists full w',
    prepare_invoices 1 clock0 five_rows 2 None world0 = Done (full, w') /\
    Z.of_nat (length full)
    = (Z.of_nat (length (batch_groups_of five_rows)) + 2 - 1) / 2.
Proof.
  split; [lia|]. split; [lia|]. split; [reflexivity|].
  apply (invoice_count 1 clock0 five_rows 2 world0); [lia | lia | reflexivity].
Defined.

(** ** X5: the order of the output *)

Lemma key_lt_batch (k1 k2 : GroupKey) : key_lt k1 k2 -> key_batch k1 <= key_batch k2.
Proof.
  unfold key_lt. rewrite key_compare_lt.
  destruct k1 as [[[b1 p1] w1] c1], k2 as [[[b2 p2] w2] c2]. simpl. lia.
Qed.

Lemma sorted_groups_batches (f : BatchGroup -> bool) (gs : list BatchGroup) :
  StronglySorted key_lt (map key_of_group gs) ->
  StronglySorted (fun a b => line_batchId a <= line_batchId b)
                 (map line_of_group (filter f gs)).
Proof.
  induction gs as [|g gs IH]; simpl; intros H; [constructor|].
  inversion H as [|? ? Hs Hall]; subst.
  destruct (f g); [|apply IH; exact Hs]. simpl.
  constructor; [apply IH; exact Hs|].
  apply Forall_map. rewrite Forall_map in Hall.
  apply Forall_forall. intros g' Hg'. apply filter_In in Hg'.
  rewrite Forall_forall in Hall. simpl.
  apply (key_lt_batch _ _ (Hall g' (proj1 Hg'))).
Qed.

(** X5. The aggregated groups have pairwise distinct keys and come in
    strictly ascending (batch, product, warehouse, counterparty) order; with
    [items_per_invoice >= 1] the lines of the returned invoices, read
    invoice by invoice, therefore have non-decreasing batch ids, whatever
    the validity dates are. *)
Theorem lines_in_key_order fuel clock df items_per_invoice w :
  1 <= items_per_invoice -> (1 <= fuel)%nat ->
  exists full w',
    prepare_invoices fuel clock df items_per_invoice None w = Done (full, w') /\
    StronglySorted key_lt (map key_of_group (batch_groups_of df)) /\
    StronglySorted (fun a b => line_batchId a <= line_batchId b)
                   (concat (map tbrDtoList full)).
Proof.
  intros Hn Hfuel.
  destruct (prepare_invoices_ok fuel clock df items_per_invoice w Hn Hfuel)
    as (full & w' & Hrun & Hlines & _).
  assert (Hs : StronglySorted key_lt (map key_of_group (batch_groups_of df))).
  { rewrite batch_groups_keys. apply group_keys_sorted. }
  exists full, w'. split; [apply (Hrun None)|]. split; [exact Hs|].
  rewrite Hlines. apply sorted_groups_batches. exact Hs.
Qed.

Lemma lines_in_key_order_witness :
  1 <= 2 /\ (1 <= 1)%nat /\
  exists full w',
    prepare_invoices 1 clock0 two_batches 2 None world0 = Done (full, w') /\
    StronglySorted key_lt (map key_of_group (batch_groups_of two_batches)) /\
    StronglySorted (fun a b => line_batchId a <= line_batchId b)
                   (concat (map tbrDtoList full)).
Proof.
  split; [lia|]. split; [lia|].
  apply (lines_in_key_order 1 clock0 two_batches 2 world0); lia.
Defined.

(** ** X6: where a line comes from *)

Lemma filter_rows_In (df : DataFrame) (r : StockRow) :
  In r (filter_rows df) <->
  In r df /\ positive_count r = true /\ written_off r = false.
Proof.
  unfold filter_rows. rewrite !filter_In, negb_true_iff. tauto.
Qed.

Lemma batch_groups_origin (df : DataFrame) (g : BatchGroup) :
  In g (batch_groups_of df) ->
  exists r, In r df /\ positive_count r = true /\ written_off r = false /\
            group_key r = Some (key_of_group g).
Proof.
  intros Hg.
  assert (Hk : In (key_of_group g) (group_keys (filter_rows df))).
  { rewrite <- batch_groups_keys. apply in_map. exact Hg. }
  apply group_keys_In in Hk. destruct Hk as (r & Hr & Ek).
  apply filter_rows_In in Hr. exists r. tauto.
Qed.

(** X6. With [items_per_invoice >= 1], every line of every returned
    invoice has a positive quantity, and its batch id is the batch id of an
    input row with a positive [countPu] and without the write-off note. *)
Theorem lines_positive_and_filtered fuel clock df items_per_invoice max_invoices w :
  1 <= items_per_invoice -> (1 <= fuel)%nat ->
  exists result w',
    prepare_invoices fuel clock df items_per_invoice max_invoices w
      = Done (result, w') /\
    forall x, In x (concat (map tbrDtoList result)) ->
      0 < countPuSent x /\
      exists r, In r df /\ positive_count r = true /\ written_off r = false /\
                batchId r = Some (line_batchId x).
Proof.
  intros Hn Hfuel.
  destruct (prepare_invoices_ok fuel clock df items_per_invoice w Hn Hfuel)
    as (full & w' & Hrun & Hlines & _).
  exists (limit_invoices max_invoices full), w'. split; [apply Hrun|].
  intros x Hx.
  destruct (limit_invoices_prefix max_invoices full) as (dropped & E).
  assert (Hin : In x (concat (map tbrDtoList full))).
  { rewrite E, map_app, concat_app. apply in_or_app. left. exact Hx. }
  rewrite Hlines in Hin. apply in_map_iff in Hin. destruct Hin as (g & <- & Hg).
  apply filter_In in Hg. destruct Hg as [Hg Hq].
  destruct (batch_groups_origin df g Hg) as (r & Hr & Hp & Hw & Ek).
  split.
  - simpl. apply float_of_pos. apply Z.ltb_lt. exact Hq.
  - exists r. repeat split; try assumption.
    apply group_key_batch in Ek. exact Ek.
Qed.

Lemma lines_positive_and_filtered_witness :
  1 <= 2 /\ (1 <= 1)%nat /\
  exists result w',
    prepare_invoices 1 clock0 partly_keyed_rows 2 (Some 2) world0
      = Done (result, w') /\
    forall x, In x (concat (map tbrDtoList result)) ->
      0 < countPuSent x /\
      exists r, In r partly_keyed_rows /\ positive_count r = true /\
                written_off r = false /\ batchId r = Some (line_batchId x).
Proof.
  split; [lia|]. split; [lia|].
  apply (lines_positive_and_filtered 1 clock0 partly_keyed_rows 2 (Some 2) world0);
    lia.
Defined.

(** ** X7, X8: rows that the filter drops *)

Lemma filter_rows_app (l1 l2 : DataFrame) :
  filter_rows (l1 ++ l2) = filter_rows l1 ++ filter_rows l2.
Proof. unfold filter_rows. rewrite !filter_app. reflexivity. Qed.

Lemma filter_rows_dropped (r : StockRow) (l1 l2 : DataFrame) :
  positive_count r = false \/ written_off r = true ->
  filter_rows (l1 ++ r :: l2) = filter_rows (l1 ++ l2).
Proof.
  intros H. rewrite !filter_rows_app. f_equal.
  change (r :: l2) with ([r] ++ l2). rewrite filter_rows_app.
  unfold filter_rows at 1. simpl.
  destruct (positive_count r) eqn:Ep; simpl.
  - destruct H as [H | H]; [discriminate|]. rewrite H. reflexivity.
  - reflexivity.
Qed.

(** With small quantities the groups do not depend on the dtype. *)
Lemma batch_groups_any_dtype (dt : Dtype) (df : DataFrame) :
  small_quantities df ->
  batch_groups_of df = groupby_agg dt (sort_values (filter_rows df)).
Proof.
  intros Hsmall. unfold batch_groups_of, groupby_agg.
  apply map_ext_in. intros k Hk.
  assert (Hk' : In k (group_keys (filter_rows df))).
  { rewrite <- (group_keys_perm _ _ (sort_values_perm (filter_rows df))). exact Hk. }
  destruct (group_small df k Hsmall Hk') as (E & Hpos & Hlt).
  destruct k as [[[b p] w] c]. unfold aggregate. f_equal.
  rewrite E. symmetry. unfold group_total.
  rewrite <- (exact_sum_perm _ _ (filter_perm (in_group (b, p, w, c)) _ _
                                   (sort_values_perm (filter_rows df)))).
  apply agg_sum_small.
  - apply Forall_forall. intros r Hr. apply filter_In in Hr.
    pose proof (sort_values_positive df) as H. rewrite Forall_forall in H.
    apply H, Hr.
  - unfold group_total in Hlt.
    rewrite (exact_sum_perm _ _ (filter_perm (in_group (b, p, w, c)) _ _
                                   (sort_values_perm (filter_rows df)))).
    lia.
Qed.

(** With small quantities the outcome depends on the filtered rows only. *)
Lemma prepare_invoices_filtered fuel clock df df' items_per_invoice max_invoices w :
  filter_rows df = filter_rows df' -> small_quantities df ->
  prepare_invoices fuel clock df items_per_invoice max_invoices w
  = prepare_invoices fuel clock df' items_per_invoice max_invoices w.
Proof.
  intros E Hsmall.
  assert (Hsmall' : small_quantities df')
    by (unfold small_quantities in *; rewrite <- E; exact Hsmall).
  unfold prepare_invoices.
  fold (batch_groups_of df). fold (batch_groups_of df').
  rewrite (batch_groups_any_dtype Int64 df Hsmall),
          (batch_groups_any_dtype Int64 df' Hsmall'), E.
  reflexivity.
Qed.

Lemma starts_with_same_case (p m post : list Z) :
  map lower m = map lower p -> starts_with p (m ++ post) = true.
Proof.
  revert m. induction p as [|a p IH]; intros [|b m] E; simpl in *;
    try discriminate; [reflexivity|].
  inversion E as [[Eab Em]]. rewrite Eab, Z.eqb_refl. simpl. apply IH. exact Em.
Qed.

Lemma contains_inside (p pre s : list Z) :
  starts_with p s = true -> contains p (pre ++ s) = true.
Proof.
  intros H. induction pre as [|a pre IH]; simpl.
  - destruct s; simpl; rewrite H; reflexivity.
  - rewrite IH. apply orb_true_r.
Qed.

(** X7. With quantities that add up to less than 2^53, a row whose note
    contains the write-off marker, with each letter in upper or in lower
    case and anywhere in the note, does not influence the result: removing
    the row from the input leaves [prepare_invoices] unchanged. *)
Theorem written_off_row_ignored (r : StockRow) (pre m post : list Z) (l1 l2 : DataFrame)
    fuel clock items_per_invoice max_invoices w :
  note r = Some (pre ++ m ++ post) -> map lower m = marker ->
  small_quantities (l1 ++ l2) ->
  prepare_invoices fuel clock (l1 ++ r :: l2) items_per_invoice max_invoices w
  = prepare_invoices fuel clock (l1 ++ l2) items_per_invoice max_invoices w.
Proof.
  intros Hnote Hm Hsmall. symmetry.
  apply prepare_invoices_filtered; [|exact Hsmall].
  symmetry. apply filter_rows_dropped.
  right. unfold written_off. rewrite Hnote.
  apply contains_inside, starts_with_same_case. rewrite Hm. reflexivity.
Qed.

Lemma written_off_row_ignored_witness :
  prepare_invoices 1 clock0 (two_batches ++ shouting_row :: five_rows) 2 None world0
  = prepare_invoices 1 clock0 (two_batches ++ five_rows) 2 None world0.
Proof.
  apply (written_off_row_ignored shouting_row [33]
           [1057; 1055; 1048; 1057; 1040; 1053; 1048; 1045; 32;
            1057; 1054; 32; 1057; 1050; 1051; 1040; 1044; 1040] [33]);
    reflexivity.
Defined.

(** X8. With quantities that add up to less than 2^53, a row whose
    [countPu] is not a number, zero or negative does not influence the
    result: removing the row from the input leaves [prepare_invoices]
    unchanged. *)
Theorem non_positive_row_ignored (r : StockRow) (l1 l2 : DataFrame)
    fuel clock items_per_invoice max_invoices w :
  countPu r = None \/ (exists q, countPu r = Some q /\ q <= 0) ->
  small_quantities (l1 ++ l2) ->
  prepare_invoices fuel clock (l1 ++ r :: l2) items_per_invoice max_invoices w
  = prepare_invoices fuel clock (l1 ++ l2) items_per_invoice max_invoices w.
Proof.
  intros H Hsmall. symmetry.
  apply prepare_invoices_filtered; [|exact Hsmall].
  symmetry. apply filter_rows_dropped.
  left. unfold positive_count.
  destruct H as [-> | (q & -> & Hq)]; [reflexivity | apply Z.ltb_ge; exact Hq].
Qed.

Lemma non_positive_row_ignored_witness :
  prepare_invoices 1 clock0 (two_batches ++ stock 0 4 1 1 9 (Some 1) :: five_rows)
    2 None world0
  = prepare_invoices 1 clock0 (two_batches ++ five_rows) 2 None world0.
Proof.
  apply (non_positive_row_ignored (stock 0 4 1 1 9 (Some 1))).
  - right. exists 0. split; [reflexivity | lia].
  - reflexivity.
Defined.

(** ** X9: the order of the input rows *)










(** ** X20: a positive limit *)

(** X20. With [items_per_invoice >= 1] and a limit [n >= 1] the returned
    list has at most [n] invoices and is a prefix of the list returned
    without a limit: whole invoices are dropped from the end, the kept ones
    are unchanged. *)
Theorem truncation_keeps_prefix fuel clock df items_per_invoice n w :
  1 <= items_per_invoice -> (1 <= fuel)%nat -> 1 <= n ->
  exists full kept dropped w',
    prepare_invoices fuel clock df items_per_invoice None w = Done (full, w') /\
    prepare_invoices fuel clock df items_per_invoice (Some n) w = Done (kept, w') /\
    full = kept ++ dropped /\
    Z.of_nat (length kept) <= n.
Proof.
  intros Hn Hfuel Hlim.
  destruct (prepare_invoices_ok fuel clock df items_per_invoice w Hn Hfuel)
    as (full & w' & Hrun & _).
  destruct (limit_invoices_prefix (Some n) full) as (dropped & E).
  exists full, (limit_invoices (Some n) full), dropped, w'.
  split; [apply (Hrun None)|]. split; [apply (Hrun (Some n))|].
  split; [exact E|]. apply limit_invoices_length. exact Hlim.
Qed.

Lemma truncation_keeps_prefix_witness :
  1 <= 1 /\ (1 <= 1)%nat /\ 1 <= 1 /\
  exists full kept dropped w',
    prepare_invoices 1 clock0 two_batches 1 None world0 = Done (full, w') /\
    prepare_invoices 1 clock0 two_batches 1 (Some 1) world0 = Done (kept, w') /\
    full = kept ++ dropped /\
    Z.of_nat (length kept) <= 1.
Proof.
  split; [lia|]. split; [lia|]. split; [lia|].
  apply (truncation_keeps_prefix 1 clock0 two_batches 1 1 world0); lia.
Defined.

(** * Further properties of [run_retail_write_off_service] *)

Lemma submit_invoice_step clock net inv_payload s :
  exists r seg,
    results (submit_invoice clock net inv_payload s) = results s ++ [r] /\
    sent (submit_invoice clock net inv_payload s) = sent s ++ seg /\
    submitted net (sent s) inv_payload r seg.
Proof.
  unfold submit_invoice, record_failure, datetime_now, submitted.
  destruct (net (sent s) (CreateDraft inv_payload)) as [| |[invoice_id|]] eqn:Ecreate;
    [| | |]; cbn [results sent].
  - eexists. eexists. split; [reflexivity|]. split; [reflexivity|].
    simpl. auto.
  - eexists. eexists. split; [reflexivity|]. split; [reflexivity|].
    simpl. auto.
  - destruct (net (sent s ++ [CreateDraft inv_payload]) (SendToRetail invoice_id))
      eqn:Esend;
      cbn [results sent]; eexists; eexists;
      (split; [reflexivity|]); rewrite <- app_assoc;
      (split; [reflexivity|]); simpl;
      (split; [reflexivity|]); (split; [right; eexists; reflexivity|]);
      first [split; reflexivity
            | exists invoice_id; split; [reflexivity|];
              split; [eexists; exact Esend|]; repeat split].
  - eexists. eexists. split; [reflexivity|]. split; [reflexivity|].
    simpl. auto.
Qed.

Lemma submit_all clock net invs :
  forall s, exists ps,
    let s' := fold_left (fun s inv_payload => submit_invoice clock net inv_payload s)
                        invs s in
    results s' = results s ++ map fst ps /\
    sent s' = sent s ++ concat (map snd ps) /\
    all_submitted net (sent s) invs ps.
Proof.
  induction invs as [|inv_payload invs IH]; intros s; simpl.
  - exists []. simpl. rewrite !app_nil_r. auto.
  - destruct (submit_invoice_step clock net inv_payload s) as (r & seg & Er & Es & Hsub).
    destruct (IH (submit_invoice clock net inv_payload s)) as (ps & Hr & Hs & Hall).
    exists ((r, seg) :: ps). simpl in *.
    rewrite Hr, Hs, Er, Es, <- !app_assoc. rewrite Es in Hall. auto.
Qed.

Lemma all_submitted_passes net invs :
  forall history ps,
    all_submitted net history invs ps -> Forall2 pass_of invs ps.
Proof.
  induction invs as [|inv_payload invs IH]; intros history [|p ps] H;
    simpl in H; try contradiction; constructor.
  - destruct H as ((Hd & Hseg & _) & _). split; assumption.
  - apply (IH (history ++ snd p)). apply H.
Qed.

(** The live run, when the invoices get prepared. *)
Lemma live_run_submits fuel clock net df items_per_invoice max_invoices w :
  1 <= items_per_invoice \/ filter keyed (filter_rows df) = [] ->
  (1 <= fuel)%nat ->
  exists live ps,
    run_retail_write_off_service fuel clock net df items_per_invoice
      max_invoices true w = Done live /\
    ret_results live = map fst ps /\
    requests_issued live = concat (map snd ps) /\
    all_submitted net [] (ret_invoices live) ps /\
    Forall2 pass_of (ret_invoices live) ps.
Proof.
  intros Hcfg Hfuel. unfold run_retail_write_off_service.
  assert (Hprep : exists invs w1,
             prepare_invoices fuel clock df items_per_invoice max_invoices
               (InvoiceCounter.reset w) = Done (invs, w1)).
  { destruct Hcfg as [Hn | Hk].
    - destruct (prepare_invoices_ok fuel clock df items_per_invoice
                  (InvoiceCounter.reset w) Hn Hfuel) as (full & w' & Hrun & _).
      eexists. eexists. apply Hrun.
    - eexists. eexists. apply prepare_invoices_no_groups, batch_groups_nil, Hk. }
  destruct Hprep as (invs & w1 & E). rewrite E.
  destruct invs as [|i0 invs]; simpl.
  - eexists. exists []. repeat split. constructor.
  - destruct (submit_all clock net (i0 :: invs)
                {| results := []; sent := []; live_world := w1 |})
      as (ps & Hr & Hs & Hall).
    cbn [results sent app] in Hr, Hs, Hall.
    eexists. exists ps. split; [reflexivity|].
    cbn [ret_results requests_issued ret_invoices].
    split; [exact Hr|]. split; [exact Hs|]. split; [exact Hall|].
    exact (all_submitted_passes net _ _ _ Hall).
Qed.

(** Each result of the passes is backed by the answers of the API to the
    requests of its own pass, at their place among the requests issued. *)
Lemma all_submitted_results net invs :
  forall history ps,
    all_submitted net history invs ps ->
    Forall (fun r =>
              match res_status r with
              | created_and_sent =>
                  exists invoice_id inv_payload before after,
                    In inv_payload invs /\
                    res_docNum r = docNum inv_payload /\
                    history ++ concat (map snd ps)
                    = before ++ [CreateDraft inv_payload; SendToRetail invoice_id]
                        ++ after /\
                    net before (CreateDraft inv_payload) = Body (Some invoice_id) /\
                    (exists answer,
                        net (before ++ [CreateDraft inv_payload])
                            (SendToRetail invoice_id) = Body answer) /\
                    res_invoice_id r = Some invoice_id /\
                    res_items_count r = Some (length (tbrDtoList inv_payload))
              | _ => res_invoice_id r = None /\ res_items_count r = None
              end) (map fst ps).
Proof.
  induction invs as [|inv_payload invs IH]; intros history [|p ps] H;
    simpl in H; try contradiction; simpl; constructor.
  - destruct H as ((Hd & _ & Hst) & _). revert Hst.
    destruct (res_status (fst p)); intros Hst; try exact Hst.
    destruct Hst as (invoice_id & Hnet & Hsend & Hid & Hcount & Hseg).
    exists invoice_id, inv_payload, history, (concat (map snd ps)).
    rewrite Hseg. simpl. repeat split; auto.
  - destruct H as (_ & H). apply IH in H.
    eapply Forall_impl; [|exact H]. intros r Hr.
    cbv beta in Hr. revert Hr. destruct (res_status r); intros Hr; try exact Hr.
    destruct Hr as (invoice_id & inv' & before & after & Hin & H1 & H2 & H3 & H4 & H5 & H6).
    exists invoice_id, inv', before, after.
    rewrite app_assoc, H2. simpl. repeat split; auto.
Qed.

(** ** X10: one result per invoice *)

(** X10. In a live run every invoice gets exactly one submission result, in
    invoice order and under the invoice's document number, whatever the
    remote API answers: a failure never stops the loop. *)
Theorem one_result_per_invoice fuel clock net df items_per_invoice max_invoices w :
  1 <= items_per_invoice \/ filter keyed (filter_rows df) = [] ->
  (1 <= fuel)%nat ->
  exists live,
    run_retail_write_off_service fuel clock net df items_per_invoice
      max_invoices true w = Done live /\
    map res_docNum (ret_results live) = map docNum (ret_invoices live).
Proof.
  intros Hcfg Hfuel.
  destruct (live_run_submits fuel clock net df items_per_invoice max_invoices w
              Hcfg Hfuel) as (live & ps & E & Hr & _ & _ & Hall).
  exists live. split; [exact E|]. rewrite Hr. clear E Hr.
  induction Hall as [|inv_payload p invs ps (Hd & _) _ IH]; simpl;
    [reflexivity | rewrite Hd, IH; reflexivity].
Qed.

Lemma one_result_per_invoice_witness :
  exists live,
    run_retail_write_off_service 1 clock0 always_down two_batches 1 None true world0
      = Done live /\
    map res_docNum (ret_results live) = map docNum (ret_invoices live).
Proof.
  apply (one_result_per_invoice 1 clock0 always_down two_batches 1 None world0);
    [left; lia | lia].
Defined.

(** ** X11: the requests of a live run *)

(** X11. In a live run the requests issued are, invoice by invoice and in
    invoice order, the draft creation of that invoice followed by at most
    one send-to-retail: every invoice is submitted as a draft exactly once,
    and a send-to-retail only ever comes right after a draft creation. *)
Theorem requests_follow_invoices fuel clock net df items_per_invoice max_invoices w :
  1 <= items_per_invoice \/ filter keyed (filter_rows df) = [] ->
  (1 <= fuel)%nat ->
  exists live segs,
    run_retail_write_off_service fuel clock net df items_per_invoice
      max_invoices true w = Done live /\
    requests_issued live = concat segs /\
    Forall2 (fun inv_payload seg =>
               seg = [CreateDraft inv_payload] \/
               exists invoice_id,
                 seg = [CreateDraft inv_payload; SendToRetail invoice_id])
            (ret_invoices live) segs.
Proof.
  intros Hcfg Hfuel.
  destruct (live_run_submits fuel clock net df items_per_invoice max_invoices w
              Hcfg Hfuel) as (live & ps & E & _ & Hs & _ & Hall).
  exists live, (map snd ps). split; [exact E|]. split; [exact Hs|].
  clear E Hs. induction Hall as [|inv_payload p invs ps (_ & Hseg) _ IH];
    simpl; constructor; assumption.
Qed.

Lemma requests_follow_invoices_witness :
  exists live segs,
    run_retail_write_off_service 1 clock0 always_created two_batches 1 None true
      world0 = Done live /\
    requests_issued live = concat segs /\
    Forall2 (fun inv_payload seg =>
               seg = [CreateDraft inv_payload] \/
               exists invoice_id,
                 seg = [CreateDraft inv_payload; SendToRetail invoice_id])
            (ret_invoices live) segs.
Proof.
  apply (requests_follow_invoices 1 clock0 always_created two_batches 1 None world0);
    [left; lia | lia].
Defined.

(** ** X12: what a result says *)

(** X12. In a live run a result with status [created_and_sent] carries the
    id that the API answered to the draft creation of its invoice (a number
    or null), and the number of lines of that invoice; the send-to-retail of
    that very id was issued right after the draft creation and was answered
    without an exception.  A result with any other status carries neither an
    invoice id nor an item count. *)
Theorem results_are_consistent fuel clock net df items_per_invoice max_invoices w :
  1 <= items_per_invoice \/ filter keyed (filter_rows df) = [] ->
  (1 <= fuel)%nat ->
  exists live,
    run_retail_write_off_service fuel clock net df items_per_invoice
      max_invoices true w = Done live /\
    Forall (fun r =>
              match res_status r with
              | created_and_sent =>
                  exists invoice_id inv_payload before after,
                    In inv_payload (ret_invoices live) /\
                    res_docNum r = docNum inv_payload /\
                    requests_issued live
                    = before ++ [CreateDraft inv_payload; SendToRetail invoice_id]
                        ++ after /\
                    net before (CreateDraft inv_payload) = Body (Some invoice_id) /\
                    (exists answer,
                        net (before ++ [CreateDraft inv_payload])
                            (SendToRetail invoice_id) = Body answer) /\
                    res_invoice_id r = Some invoice_id /\
                    res_items_count r = Some (length (tbrDtoList inv_payload))
              | _ => res_invoice_id r = None /\ res_items_count r = None
              end) (ret_results live).
Proof.
  intros Hcfg Hfuel.
  destruct (live_run_submits fuel clock net df items_per_invoice max_invoices w
              Hcfg Hfuel) as (live & ps & E & Hr & Hs & Hall & _).
  exists live. split; [exact E|]. rewrite Hr, Hs.
  exact (all_submitted_results net _ _ _ Hall).
Qed.

Lemma results_are_consistent_witness :
  exists live,
    run_retail_write_off_service 1 clock0 always_created two_batches 1 None true
      world0 = Done live /\
    Forall (fun r =>
              match res_status r with
              | created_and_sent =>
                  exists invoice_id inv_payload before after,
                    In inv_payload (ret_invoices live) /\
                    res_docNum r = docNum inv_payload /\
                    requests_issued live
                    = before ++ [CreateDraft inv_payload; SendToRetail invoice_id]
                        ++ after /\
                    always_created before (CreateDraft inv_payload)
                    = Body (Some invoice_id) /\
                    (exists answer,
                        always_created (before ++ [CreateDraft inv_payload])
                                       (SendToRetail invoice_id) = Body answer) /\
                    res_invoice_id r = Some invoice_id /\
                    res_items_count r = Some (length (tbrDtoList inv_payload))
              | _ => res_invoice_id r = None /\ res_items_count r = None
              end) (ret_results live).
Proof.
  apply (results_are_consistent 1 clock0 always_created two_batches 1 None world0);
    [left; lia | lia].
Defined.

(** ** X13: document numbers of a run *)

(** X13. Whatever the counter was before, the invoices returned by the
    service in either mode are numbered 1, 2, 3, ... in list order: the
    counter is reset at the start of every run. *)
Theorem run_numbers_from_one fuel clock net df items_per_invoice max_invoices
    execute w :
  1 <= items_per_invoice -> (1 <= fuel)%nat ->
  exists out,
    run_retail_write_off_service fuel clock net df items_per_invoice
      max_invoices execute w = Done out /\
    map (fun i => snd (docNum i)) (ret_invoices out)
    = seq 1 (length (ret_invoices out)).
Proof.
  intros Hn Hfuel. unfold run_retail_write_off_service.
  destruct (prepare_invoices_chunks fuel clock df items_per_invoice
              (InvoiceCounter.reset w) Hn Hfuel) as (cs & _ & _ & _ & Hrun).
  rewrite (Hrun max_invoices). simpl counter. simpl ticks.
  set (full := invoices_of_chunks clock 1 (ticks w) 0 cs).
  assert (Hnum : map (fun i => snd (docNum i)) (limit_invoices max_invoices full)
                 = seq 1 (length (limit_invoices max_invoices full))).
  { destruct (limit_invoices_prefix max_invoices full) as (dropped & E).
    apply (seq_prefix _ _ _ dropped). rewrite <- E. unfold full.
    rewrite numbers_of_chunks, invoices_of_chunks_length. reflexivity. }
  destruct (limit_invoices max_invoices full) as [|i0 invs] eqn:El.
  - simpl. eexists. split; reflexivity.
  - cbn [is_nonempty negb]. destruct execute; simpl negb; cbv iota;
      eexists; (split; [reflexivity|]); exact Hnum.
Qed.

Lemma run_numbers_from_one_witness :
  1 <= 1 /\ (1 <= 1)%nat /\
  exists out,
    run_retail_write_off_service 1 clock0 always_created two_batches 1 (Some 2)
      true {| counter := 7; ticks := 3 |} = Done out /\
    map (fun i => snd (docNum i)) (ret_invoices out)
    = seq 1 (length (ret_invoices out)).
Proof.
  split; [lia|]. split; [lia|].
  apply (run_numbers_from_one 1 clock0 always_created two_batches 1 (Some 2) true
           {| counter := 7; ticks := 3 |}); lia.
Defined.

(** * Further properties of the delivery notifier *)

Lemma process_row_attempts clock backend svc row :
  attempts (process_row clock backend svc row)
  = attempts svc ++ [notify_delivered clock backend svc (id row)
                       (effective_warehouse row)].
Proof. reflexivity. Qed.

Lemma process_row_counts clock backend svc row :
  let a := notify_delivered clock backend svc (id row) (effective_warehouse row) in
  success_count (process_row clock backend svc row)
    = (success_count svc + (if answered_ok a then 1 else 0))%nat /\
  error_count (process_row clock backend svc row)
    = (error_count svc + (if answered_ok a then 0 else 1))%nat.
Proof.
  unfold process_row, answered_ok. cbn [success_count error_count].
  destruct (notify_delivered clock backend svc (id row) (effective_warehouse row))
    as [? ?|req [|status]]; try (split; lia).
  destruct (status =? 200); split; lia.
Qed.

Lemma process_rows_counts clock backend rows :
  forall svc,
    success_count svc = length (filter answered_ok (attempts svc)) ->
    error_count svc = length (filter (fun a => negb (answered_ok a)) (attempts svc)) ->
    let svc' := fold_left (process_row clock backend) rows svc in
    success_count svc' = length (filter answered_ok (attempts svc')) /\
    error_count svc'
    = length (filter (fun a => negb (answered_ok a)) (attempts svc')).
Proof.
  induction rows as [|row rows IH]; intros svc Hs He; simpl; [auto|].
  apply IH.
  - rewrite process_row_attempts, filter_app, length_app.
    rewrite (proj1 (process_row_counts clock backend svc row)), Hs. simpl.
    destruct (answered_ok _); reflexivity.
  - rewrite process_row_attempts, filter_app, length_app.
    rewrite (proj2 (process_row_counts clock backend svc row)), He. simpl.
    destruct (answered_ok _); reflexivity.
Qed.

(** ** X14: the summary agrees with what happened *)

(** X14. When the fetch succeeds, the success count of the summary is the
    number of notifications that were posted and answered with HTTP status
    200, and the error count is the number of all other attempts (payload
    not built, request raised, any other status). *)
Theorem summary_counts_attempts clock backend rows :
  fetch_result backend = inr rows ->
  exists svc,
    run clock backend init = Done svc /\
    success_count svc = length (filter answered_ok (attempts svc)) /\
    error_count svc = length (filter (fun a => negb (answered_ok a)) (attempts svc)).
Proof.
  intros Hfetch. unfold run, fetch_invoices. rewrite Hfetch.
  eexists. split; [reflexivity|].
  apply (process_rows_counts clock backend rows init); reflexivity.
Qed.

Lemma summary_counts_attempts_witness :
  exists svc,
    run clock0 (always_ok [unparseable_record; missing_id_record]) init = Done svc /\
    success_count svc = length (filter answered_ok (attempts svc)) /\
    error_count svc = length (filter (fun a => negb (answered_ok a)) (attempts svc)).
Proof.
  apply (summary_counts_attempts clock0
           (always_ok [unparseable_record; missing_id_record])
           [unparseable_record; missing_id_record]).
  reflexivity.
Defined.

(** ** X15: what is posted *)

Lemma posted_requests_app (l1 l2 : list Attempt) :
  posted_requests (l1 ++ l2) = posted_requests l1 ++ posted_requests l2.
Proof. unfold posted_requests. apply flat_map_app. Qed.

Lemma process_rows_posted clock backend rows :
  forall svc,
    map (fun req => (oid req, req_destinationWarehouseId req))
        (posted_requests (attempts (fold_left (process_row clock backend) rows svc)))
    = map (fun req => (oid req, req_destinationWarehouseId req))
          (posted_requests (attempts svc))
      ++ flat_map request_of_row rows.
Proof.
  induction rows as [|row rows IH]; intros svc; simpl.
  - rewrite app_nil_r. reflexivity.
  - rewrite IH, process_row_attempts, posted_requests_app, map_app, <- app_assoc.
    f_equal. f_equal. unfold notify_delivered, request_of_row.
    destruct (py_int (effective_warehouse row)); reflexivity.
Qed.

(** X15. When the fetch succeeds and the warehouse ids that are text are
    ASCII text of at most 4300 characters, the notifications posted are, in
    row order, one per row whose warehouse id (after the fallback rule)
    converts with [int]; each carries the row's invoice id and that
    warehouse id.  Rows whose warehouse id does not convert post nothing. *)
Theorem posted_notifications clock backend rows :
  fetch_result backend = inr rows ->
  Forall (fun row => plain_text (destinationWarehouseId row) = true) rows ->
  exists svc,
    run clock backend init = Done svc /\
    map (fun req => (oid req, req_destinationWarehouseId req))
        (posted_requests (attempts svc))
    = flat_map request_of_row rows.
Proof.
  intros Hfetch _. unfold run, fetch_invoices. rewrite Hfetch.
  eexists. split; [reflexivity|].
  rewrite (process_rows_posted clock backend rows init). reflexivity.
Qed.

Lemma posted_notifications_witness :
  Forall (fun row => plain_text (destinationWarehouseId row) = true)
         [unparseable_record; missing_warehouse_record] /\
  exists svc,
    run clock0 (always_ok [unparseable_record; missing_warehouse_record]) init
      = Done svc /\
    map (fun req => (oid req, req_destinationWarehouseId req))
        (posted_requests (attempts svc))
    = flat_map request_of_row [unparseable_record; missing_warehouse_record].
Proof.
  split; [repeat constructor|].
  apply (posted_notifications clock0
           (always_ok [unparseable_record; missing_warehouse_record])
           [unparseable_record; missing_warehouse_record]);
    [reflexivity | repeat constructor].
Defined.

(** ** X16, X17: single rows *)

Lemma process_rows_clock clock backend rows :
  forall svc,
    clock_reads (fold_left (process_row clock backend) rows svc)
    = (clock_reads svc + length rows)%nat.
Proof.
  induction rows as [|row rows IH]; intros svc; simpl; [lia|].
  rewrite IH. simpl. lia.
Qed.

(** The attempt made for the [i]-th row, and the state it was made in. *)
Lemma process_rows_nth_state clock backend rows :
  forall svc i row,
    nth_error rows i = Some row ->
    nth_error (attempts (fold_left (process_row clock backend) rows svc))
              (length (attempts svc) + i)
    = Some (notify_delivered clock backend
              (fold_left (process_row clock backend) (firstn i rows) svc)
              (id row) (effective_warehouse row)).
Proof.
  induction rows as [|r rows IH]; intros svc i row Hi.
  - destruct i; discriminate.
  - destruct i as [|i]; simpl in Hi |- *.
    + inversion Hi; subst r.
      destruct (process_rows_attempts clock backend rows
                  (process_row clock backend svc row)) as (rest & E).
      rewrite E, process_row_attempts, <- app_assoc, Nat.add_0_r.
      rewrite nth_error_app2 by lia. rewrite Nat.sub_diag. reflexivity.
    + rewrite <- (IH (process_row clock backend svc r) i row Hi). f_equal.
      rewrite process_row_attempts, length_app. simpl. lia.
Qed.

(** X16. A row without an invoice id is still notified, and with the
    fallback warehouse 1085300, whatever warehouse id the row itself
    carries. *)
Theorem missing_id_forces_fallback clock backend rows i row :
  fetch_result backend = inr rows ->
  nth_error rows i = Some row ->
  isna (id row) = true ->
  exists svc out,
    run clock backend init = Done svc /\
    nth_error (attempts svc) i
    = Some (Posted {| oid := id row; dateAction := clock i;
                      req_destinationWarehouseId := 1085300 |} out).
Proof.
  intros Hfetch Hi Hid. unfold run, fetch_invoices. rewrite Hfetch.
  pose proof (process_rows_nth_state clock backend rows init i row Hi) as E.
  simpl in E.
  assert (Hw : effective_warehouse row = CInt 1085300).
  { unfold effective_warehouse. rewrite Hid. reflexivity. }
  rewrite Hw in E. unfold notify_delivered in E. simpl in E.
  rewrite process_rows_clock, length_firstn in E. simpl in E.
  assert (Hlt : (i < length rows)%nat) by (apply nth_error_Some; congruence).
  rewrite Nat.min_l in E by lia.
  eexists. eexists. split; [reflexivity | exact E].
Qed.

Lemma missing_id_forces_fallback_witness :
  exists svc out,
    run clock0 (always_ok [unparseable_record; missing_id_record]) init = Done svc /\
    nth_error (attempts svc) 1
    = Some (Posted {| oid := CNull; dateAction := clock0 1;
                      req_destinationWarehouseId := 1085300 |} out).
Proof.
  apply (missing_id_forces_fallback clock0
           (always_ok [unparseable_record; missing_id_record])
           [unparseable_record; missing_id_record] 1 missing_id_record);
    reflexivity.
Defined.

(** X17. A row with an invoice id and a warehouse id that is neither
    null, nor 0, nor the text "0" is passed on as it is.  When the warehouse
    id is a number, or ASCII text of at most 4300 characters: if it converts
    with [int] the notification is posted with that number, and otherwise
    nothing is posted for the row. *)
Theorem warehouse_passed_through clock backend rows i row :
  fetch_result backend = inr rows ->
  nth_error rows i = Some row ->
  isna (id row) = false ->
  isna (destinationWarehouseId row) = false ->
  in_zero (destinationWarehouseId row) = false ->
  plain_text (destinationWarehouseId row) = true ->
  exists svc,
    run clock backend init = Done svc /\
    match py_int (destinationWarehouseId row) with
    | Some wh =>
        exists out,
          nth_error (attempts svc) i
          = Some (Posted {| oid := id row; dateAction := clock i;
                            req_destinationWarehouseId := wh |} out)
    | None =>
        nth_error (attempts svc) i
        = Some (NotSent (id row) (destinationWarehouseId row))
    end.
Proof.
  intros Hfetch Hi Hid Hna Hz _. unfold run, fetch_invoices. rewrite Hfetch.
  pose proof (process_rows_nth_state clock backend rows init i row Hi) as E.
  simpl in E.
  assert (Hw : effective_warehouse row = destinationWarehouseId row).
  { unfold effective_warehouse. rewrite Hid, Hna, Hz. reflexivity. }
  rewrite Hw in E. unfold notify_delivered in E.
  rewrite process_rows_clock, length_firstn in E. simpl in E.
  assert (Hlt : (i < length rows)%nat) by (apply nth_error_Some; congruence).
  rewrite Nat.min_l in E by lia.
  eexists. split; [reflexivity|].
  destruct (py_int (destinationWarehouseId row)); [eexists|]; exact E.
Qed.

Lemma warehouse_passed_through_witness :
  plain_text (destinationWarehouseId text_warehouse_record) = true /\
  exists svc,
    run clock0 (always_ok [unparseable_record; text_warehouse_record]) init
      = Done svc /\
    exists out,
      nth_error (attempts svc) 1
      = Some (Posted {| oid := CInt 8; dateAction := clock0 1;
                        req_destinationWarehouseId := 10 |} out).
Proof.
  split; [reflexivity|].
  apply (warehouse_passed_through clock0
           (always_ok [unparseable_record; text_warehouse_record])
           [unparseable_record; text_warehouse_record] 1 text_warehouse_record);
    reflexivity.
Defined.

(** * The command line of the write-off service *)

(** ** X18: when requests are submitted *)

(** X18. [main] submits something to the remote API only if the URL and the
    authorization are set, the stock request returned at least one row, and
    [--execute] was given; in every other case no draft is created and
    nothing is sent to retail. *)
Theorem main_submits_only_when_asked fuel clock cfg args stock_api net w out so :
  main fuel clock cfg args stock_api net w = Done out ->
  service_outcome out = Some so ->
  requests_issued so <> [] ->
  is_set (URL cfg) = true /\ is_set (AUTHORIZATION cfg) = true /\
  arg_execute args = true /\
  exists rows, stock_api = StocksRows rows /\ rows <> [].
Proof.
  unfold main, get_warehouse_stocks, datetime_now.
  destruct (is_set (URL cfg)); simpl; [|intros E; inversion E; subst; discriminate].
  destruct (is_set (AUTHORIZATION cfg)); simpl;
    [|intros E; inversion E; subst; discriminate].
  destruct stock_api as [| |rows];
    try (intros E; inversion E; subst; discriminate).
  destruct rows as [|r rows]; simpl;
    [intros E; inversion E; subst; discriminate|].
  unfold run_retail_write_off_service.
  destruct (prepare_invoices _ _ _ _ _ _) as [[invs w1]| |];
    try (intros E; inversion E; subst; discriminate).
  destruct invs as [|i0 invs]; simpl.
  - intros E; inversion E; subst. simpl. intros Hso. inversion Hso; subst.
    simpl. congruence.
  - destruct (arg_execute args); simpl.
    + intros _ _ _. repeat split. exists (r :: rows). split; [reflexivity|discriminate].
    + intros E; inversion E; subst. simpl. intros Hso. inversion Hso; subst.
      simpl. congruence.
Qed.

Lemma main_submits_only_when_asked_witness :
  is_set (URL configured) = true /\ is_set (AUTHORIZATION configured) = true /\
  true = true /\
  exists rows, StocksRows two_batches = StocksRows rows /\ rows <> [].
Proof.
  apply (main_submits_only_when_asked 1 clock0 configured
           {| arg_execute := true; arg_limit := 2; arg_items := 2;
              arg_no_limit := false |}
           (StocksRows two_batches) always_created world0
           _ _ eq_refl eq_refl).
  discriminate.
Defined.

(** ** X19: the limits of the command line bound the traffic *)

Lemma segments_length (invs : list InvoiceSpec)
    (ps : list (SubmissionResult * list Request)) :
  Forall2 pass_of invs ps ->
  (length (concat (map snd ps)) <= 2 * length invs)%nat.
Proof.
  induction 1 as [|inv_payload p invs ps (_ & Hseg) _ IH]; simpl; [lia|].
  rewrite length_app.
  destruct Hseg as [-> | (invoice_id & ->)]; simpl; lia.
Qed.

(** X19. With [--limit n] for [n >= 1], [--items] at least 1, no
    [--no-limit], a complete configuration and a non-empty stock table,
    [main] returns; the service prepared at most [n] invoices and issued at
    most [2 * n] requests, and the invoices file holds exactly the returned
    invoices. *)
Theorem main_limit_bounds_requests fuel clock cfg args rows net w :
  is_set (URL cfg) = true -> is_set (AUTHORIZATION cfg) = true ->
  rows <> [] ->
  arg_no_limit args = false -> 1 <= arg_limit args -> 1 <= arg_items args ->
  (1 <= fuel)%nat ->
  exists out so,
    main fuel clock cfg args (StocksRows rows) net w = Done out /\
    service_outcome out = Some so /\
    Z.of_nat (length (ret_invoices so)) <= arg_limit args /\
    Z.of_nat (length (requests_issued so)) <= 2 * arg_limit args /\
    invoices_file out
    = (if is_nonempty (ret_invoices so) then Some (ret_invoices so) else None).
Proof.
  intros Hurl Hauth Hrows Hnl Hlim Hitems Hfuel.
  remember (2 * arg_limit args) as bound eqn:Hb.
  unfold main, get_warehouse_stocks, datetime_now. rewrite Hurl, Hauth, Hnl.
  simpl. destruct rows as [|r rows]; [congruence|]. cbn [is_nonempty negb].
  set (w1 := {| counter := counter w; ticks := S (ticks w) |}).
  unfold run_retail_write_off_service.
  destruct (prepare_invoices_ok fuel clock (r :: rows) (arg_items args)
              (InvoiceCounter.reset w1) Hitems Hfuel) as (full & w' & Hrun & _).
  rewrite (Hrun (Some (arg_limit args))).
  pose proof (limit_invoices_length (arg_limit args) full Hlim) as Hlen.
  destruct (limit_invoices (Some (arg_limit args)) full) as [|i0 invs] eqn:El.
  - simpl. eexists. eexists. split; [reflexivity|]. split; [reflexivity|].
    cbn [ret_invoices requests_issued invoices_file is_nonempty length].
    split; [lia|]. split; [lia | reflexivity].
  - cbn [is_nonempty negb]. destruct (arg_execute args); simpl negb; cbv iota.
    + destruct (submit_all clock net (i0 :: invs)
                  {| results := []; sent := []; live_world := w' |})
        as (ps & _ & Hs & Hall).
      cbv zeta in Hs. cbn [sent app] in Hs.
      apply all_submitted_passes, segments_length in Hall.
      eexists. eexists. split; [reflexivity|]. split; [reflexivity|].
      cbn [ret_invoices requests_issued invoices_file is_nonempty].
      split; [exact Hlen|]. split; [|reflexivity].
      rewrite Hs. lia.
    + eexists. eexists. split; [reflexivity|]. split; [reflexivity|].
      cbn [ret_invoices requests_issued invoices_file is_nonempty].
      split; [exact Hlen|]. split; [simpl; lia | reflexivity].
Qed.

Lemma main_limit_bounds_requests_witness :
  exists out so,
    main 1 clock0 configured
      {| arg_execute := true; arg_limit := 1; arg_items := 1; arg_no_limit := false |}
      (StocksRows two_batches) always_created world0 = Done out /\
    service_outcome out = Some so /\
    Z.of_nat (length (ret_invoices so)) <= 1 /\
    Z.of_nat (length (requests_issued so)) <= 2 * 1 /\
    invoices_file out
    = (if is_nonempty (ret_invoices so) then Some (ret_invoices so) else None).
Proof.
  apply (main_limit_bounds_requests 1 clock0 configured
           {| arg_execute := true; arg_limit := 1; arg_items := 1;
              arg_no_limit := false |}
           two_batches always_created world0);
    try reflexivity; try discriminate; simpl; lia.
Defined.
